(** * The announce Receiver of go-libipni

    A shallow embedding of the Receiver of package announce, which
    multiplexes gossip pubsub messages and direct announcements into one
    output channel, with peer admission, CID deduplication, address
    filtering and republishing.

    Go methods on [*Receiver] become computations in a small monad over a
    [World] (the receiver object plus a trace of the calls made on its
    collaborators).  A computation returns, blocks (a mutex that is held, a
    channel operation that is not ready) or panics (a nil dereference,
    closing a closed channel). *)

From Stdlib Require Import List String Bool Arith ZArith Lia.
From Stdlib Require Import Strings.Byte.
Import ListNotations.
Open Scope string_scope.

(** ** Identifiers and addresses *)

(** [peer.ID] is a Go string type; [cid.Cid] wraps a string. *)
Definition PeerID := string.
Definition Cid := string.
Definition bytes := list byte.

(** A multiaddress is a sequence of components.  Only the component kinds
    that address classification looks at carry structure. *)
Inductive Component : Type :=
| IP4 (addr : Z)            (* 32-bit address *)
| IP6 (addr : Z)            (* 128-bit address *)
| DNS (name : string)       (* dns, dns4, dns6, dnsaddr *)
| TCP (port : Z)
| UDP (port : Z)
| HTTP
| P2P (id : PeerID).

Definition Multiaddr := list Component.

(** An entry of a [[]multiaddr.Multiaddr] slice is an interface value and
    may be nil. *)
Definition Addrs := list (option Multiaddr).

Module mautil.

Local Open Scope Z_scope.

Definition ip4 (a b c d : Z) : Z := ((a * 256 + b) * 256 + c) * 256 + d.

(** The leading 16-bit group of an IPv6 address, the rest zero. *)
Definition ip6_hi (g : Z) : Z := Z.shiftl g 112.

Definition isLoopback4 (a : Z) : bool := Z.shiftr a 24 =? 127.
Definition isLinkLocal4 (a : Z) : bool := Z.shiftr a 16 =? 43518. (* 169.254/16 *)
Definition isPrivate4 (a : Z) : bool :=
  (Z.shiftr a 24 =? 10) || (Z.shiftr a 20 =? 2753) || (Z.shiftr a 16 =? 49320).
Definition isUnspecified4 (a : Z) : bool := a =? 0.
Definition isMulticast4 (a : Z) : bool := Z.shiftr a 28 =? 14.

Definition isLoopback6 (a : Z) : bool := a =? 1.
Definition isLinkLocal6 (a : Z) : bool := Z.shiftr a 118 =? 1018. (* fe80::/10 *)
Definition isPrivate6 (a : Z) : bool := Z.shiftr a 121 =? 126.    (* fc00::/7 *)
Definition isUnspecified6 (a : Z) : bool := a =? 0.
Definition isMulticast6 (a : Z) : bool := Z.shiftr a 120 =? 255.

(** The three classes the specification names as removed. *)
Definition nonPublicIP (c : Component) : bool :=
  match c with
  | IP4 a => isLoopback4 a || isLinkLocal4 a || isPrivate4 a
  | IP6 a => isLoopback6 a || isLinkLocal6 a || isPrivate6 a
  | _ => false
  end.

(** Globally routable unicast. *)
Definition isPublicIP (c : Component) : bool :=
  match c with
  | IP4 a => negb (nonPublicIP c || isUnspecified4 a || isMulticast4 a)
  | IP6 a => negb (nonPublicIP c || isUnspecified6 a || isMulticast6 a)
  | _ => false
  end.

(** An address is non-public when the IP component it starts with is
    loopback, link-local or private. *)
Definition nonPublicAddr (ma : Multiaddr) : bool :=
  match ma with
  | c :: _ => nonPublicIP c
  | [] => false
  end.

Definition keepAddr (ma : Multiaddr) : bool :=
  match ma with
  | (IP4 _ as c) :: _ | (IP6 _ as c) :: _ => isPublicIP c
  | DNS name :: _ => negb (String.eqb name "localhost")
  | _ => false
  end.

(** Modelled from the spec: [mautil.FilterPublic] (package mautil is not
    among the sources; its test [TestFilterPublic] is).  It returns only
    the addresses that start with a globally routable unicast IP:
    loopback, link-local and private IPv4/IPv6 ranges are removed; nil
    entries are preserved; a nil slice gives nil.  Following the test,
    the unspecified address and the DNS name localhost are removed as
    well, and other DNS names are kept. *)
Definition FilterPublic (maddrs : Addrs) : Addrs :=
  filter (fun e => match e with
                   | None => true
                   | Some ma => keepAddr ma
                   end) maddrs.

End mautil.

(** ** The bounded LRU set of strings *)

Module stringLRU.

(** Keys in recency order, most recently used first. *)
Record t : Type := mk { cap : nat; keys : list string }.

Definition mem (key : string) (l : t) : bool :=
  existsb (String.eqb key) (keys l).

Definition drop (key : string) (ks : list string) : list string :=
  filter (fun k => negb (String.eqb key k)) ks.

(** Modelled from the spec: [newStringLRU] (stringlru.go is not among
    the sources). *)
Definition newStringLRU (size : nat) : t := mk size [].

(** Modelled from the spec: [stringLRU.update].  Returns true if the key
    is in the set and promotes it to most recently used; otherwise
    inserts it, evicting the least recently used key if at capacity, and
    returns false. *)
Definition update (key : string) (l : t) : bool * t :=
  if mem key l then (true, mk (cap l) (key :: drop key (keys l)))
  else if Nat.leb (cap l) (List.length (keys l))
       then (false, mk (cap l) (key :: removelast (keys l)))
       else (false, mk (cap l) (key :: keys l)).

(** Modelled from the spec: [stringLRU.remove].  Deletes the key; no-op
    if absent. *)
Definition remove (key : string) (l : t) : t :=
  mk (cap l) (drop key (keys l)).

Definition size (l : t) : nat := List.length (keys l).

End stringLRU.

(** ** Errors *)

Inductive Error : Type :=
| ErrClosed
| errSourceNotAllowed
| errAlreadySeenCid
| ctxCanceled                 (* context.Canceled *)
| ctxDeadlineExceeded         (* context.DeadlineExceeded *)
| ErrSubscriptionCancelled    (* pubsub.ErrSubscriptionCancelled *)
| ErrOther (msg : string)     (* an error of a collaborator *)
| ErrWrap (msg : string) (cause : Error).   (* fmt.Errorf("...: %w", err) *)

Fixpoint Error_eqb (a b : Error) : bool :=
  match a, b with
  | ErrClosed, ErrClosed
  | errSourceNotAllowed, errSourceNotAllowed
  | errAlreadySeenCid, errAlreadySeenCid
  | ctxCanceled, ctxCanceled
  | ctxDeadlineExceeded, ctxDeadlineExceeded
  | ErrSubscriptionCancelled, ErrSubscriptionCancelled => true
  | ErrOther m, ErrOther n => String.eqb m n
  | ErrWrap m e, ErrWrap n f => String.eqb m n && Error_eqb e f
  | _, _ => false
  end.

(** [errors.Is]: the target is the error or is in its wrap chain. *)
Fixpoint errors_Is (err target : Error) : bool :=
  Error_eqb err target ||
  match err with
  | ErrWrap _ cause => errors_Is cause target
  | _ => false
  end.

(** A Go [error] result: [None] is nil. *)
Definition error := option Error.

(** The state of a [context.Context] when it is looked at: [None] while it
    is live, otherwise its [Err()]. *)
Definition Ctx := option Error.

(** ** Data of the package *)

Record Announce : Type := mkAnnounce {
  Cid_ : Cid;
  PeerID_ : PeerID;
  Addrs_ : Addrs
}.

(** [message.Message], the gossip message on the wire. *)
Record Message : Type := mkMessage {
  mCid : Cid;
  mAddrs : list bytes;
  mOrigPeer : string
}.

(** Handles of the collaborators.  A pointer field of the receiver is an
    [option] of a handle, [None] being nil. *)
Inductive Topic : Type := TopicH (name : string).
Inductive Subscription : Type := SubH (generation : nat).
Inductive Sender : Type := SenderH.
Inductive CancelFunc : Type := cancelWatchFn | cancelPubsubFn.

Definition AllowPeerFunc := PeerID -> bool.

Definition announceCacheSize : nat := 64.

Record Receiver : Type := mkReceiver {
  allowPeer : option AllowPeerFunc;
  filterIPs : bool;
  resend : bool;
  hostID : PeerID;
  announceCache : stringLRU.t;
  announceMutex : bool;               (* true while the mutex is held *)
  closed : bool;
  cancelWatch : option CancelFunc;
  watchDone : option bool;            (* nil, or a channel and whether it is closed *)
  done : bool;                        (* whether the done channel is closed *)
  cancelPubsub : option CancelFunc;
  sender : option Sender;
  topic : option Topic;
  topicSub : option Subscription;
  outChan : list Announce             (* the buffer of a channel of capacity 1 *)
}.

Definition outChanCap : nat := 1.

Definition set_announceCache (c : stringLRU.t) (r : Receiver) : Receiver :=
  mkReceiver (allowPeer r) (filterIPs r) (resend r) (hostID r) c
    (announceMutex r) (closed r) (cancelWatch r) (watchDone r) (done r)
    (cancelPubsub r) (sender r) (topic r) (topicSub r) (outChan r).

Definition set_announceMutex (b : bool) (r : Receiver) : Receiver :=
  mkReceiver (allowPeer r) (filterIPs r) (resend r) (hostID r) (announceCache r)
    b (closed r) (cancelWatch r) (watchDone r) (done r)
    (cancelPubsub r) (sender r) (topic r) (topicSub r) (outChan r).

Definition set_closed (b : bool) (r : Receiver) : Receiver :=
  mkReceiver (allowPeer r) (filterIPs r) (resend r) (hostID r) (announceCache r)
    (announceMutex r) b (cancelWatch r) (watchDone r) (done r)
    (cancelPubsub r) (sender r) (topic r) (topicSub r) (outChan r).

Definition set_watchDone (c : option bool) (r : Receiver) : Receiver :=
  mkReceiver (allowPeer r) (filterIPs r) (resend r) (hostID r) (announceCache r)
    (announceMutex r) (closed r) (cancelWatch r) c (done r)
    (cancelPubsub r) (sender r) (topic r) (topicSub r) (outChan r).

Definition set_done (b : bool) (r : Receiver) : Receiver :=
  mkReceiver (allowPeer r) (filterIPs r) (resend r) (hostID r) (announceCache r)
    (announceMutex r) (closed r) (cancelWatch r) (watchDone r) b
    (cancelPubsub r) (sender r) (topic r) (topicSub r) (outChan r).

Definition set_topicSub (s : option Subscription) (r : Receiver) : Receiver :=
  mkReceiver (allowPeer r) (filterIPs r) (resend r) (hostID r) (announceCache r)
    (announceMutex r) (closed r) (cancelWatch r) (watchDone r) (done r)
    (cancelPubsub r) (sender r) (topic r) s (outChan r).

Definition set_outChan (q : list Announce) (r : Receiver) : Receiver :=
  mkReceiver (allowPeer r) (filterIPs r) (resend r) (hostID r) (announceCache r)
    (announceMutex r) (closed r) (cancelWatch r) (watchDone r) (done r)
    (cancelPubsub r) (sender r) (topic r) (topicSub r) q.

(** ** The world: the receiver and what it did to its collaborators *)

Inductive Level : Type := LvlDebug | LvlInfo | LvlError.

Inductive Event : Type :=
| EvLog (lvl : Level) (msg : string)
| EvMakeTopic (name : string)          (* gossiptopic.MakeTopic *)
| EvSubscribe (t : Topic)              (* Topic.Subscribe *)
| EvSubCancel (s : Subscription)       (* Subscription.Cancel *)
| EvSenderNew                          (* p2psender.New *)
| EvSend (m : Message)                 (* Sender.Send *)
| EvSenderClose                        (* Sender.Close *)
| EvTopicClose (t : Topic)             (* Topic.Close *)
| EvCancel (f : CancelFunc)            (* a context cancel function called *)
| EvGoWatch.                           (* go r.watch(watchCtx) *)

Record World : Type := mkWorld {
  rcv : Receiver;
  trace : list Event;          (* most recent first *)
  watchCancelled : bool        (* whether watchCtx was cancelled *)
}.

Inductive Outcome (A : Type) : Type :=
| Ret (a : A) (w : World)      (* returned a *)
| Blocked (w : World)          (* waits for another task *)
| Panic (w : World).           (* run time panic *)
Arguments Ret {A} a w.
Arguments Blocked {A} w.
Arguments Panic {A} w.

Definition M (A : Type) : Type := World -> Outcome A.

Definition ret {A} (a : A) : M A := fun w => Ret a w.

Definition bind {A B} (m : M A) (k : A -> M B) : M B :=
  fun w => match m w with
           | Ret a w' => k a w'
           | Blocked w' => Blocked w'
           | Panic w' => Panic w'
           end.

Declare Scope go_scope.
Delimit Scope go_scope with go.
Notation "x <- m ;; k" := (bind m (fun x => k))
  (at level 61, m at next level, right associativity) : go_scope.
Notation "m ;; k" := (bind m (fun _ => k))
  (at level 61, right associativity) : go_scope.
Open Scope go_scope.

Definition block {A} : M A := fun w => Blocked w.
Definition panic {A} : M A := fun w => Panic w.
Definition getR : M Receiver := fun w => Ret (rcv w) w.
Definition modR (f : Receiver -> Receiver) : M unit :=
  fun w => Ret tt (mkWorld (f (rcv w)) (trace w) (watchCancelled w)).
Definition emit (e : Event) : M unit :=
  fun w => Ret tt (mkWorld (rcv w) (e :: trace w) (watchCancelled w)).
Definition logw (lvl : Level) (msg : string) : M unit := emit (EvLog lvl msg).

(** [sync.Mutex]: locking a held mutex waits; unlocking a free one is a
    fatal error. *)
Definition Lock : M unit :=
  r <- getR ;;
  if announceMutex r then block else modR (set_announceMutex true).

Definition Unlock : M unit :=
  r <- getR ;;
  if announceMutex r then modR (set_announceMutex false) else panic.

(** Calling a cancel function.  Cancelling the watch context is seen by the
    watcher; cancelling the pubsub scope is a call on the collaborator. *)
Definition callCancel (f : CancelFunc) : M unit :=
  emit (EvCancel f) ;;
  match f with
  | cancelWatchFn =>
      fun w => Ret tt (mkWorld (rcv w) (trace w) true)
  | cancelPubsubFn => ret tt
  end.

(** ** Collaborators outside the package *)

(** The codecs of the libraries the receiver calls.  A decoder that fails
    gives [None]; the receiver only logs the error it got. *)
Class Extern : Type := {
  Cid_String : Cid -> string;                  (* cid.Cid.String *)
  PeerID_String : PeerID -> string;            (* peer.ID.String *)
  peer_Decode : string -> option PeerID;       (* peer.Decode *)
  peer_IDFromBytes : bytes -> option PeerID;   (* peer.IDFromBytes *)
  UnmarshalCBOR : bytes -> option Message;     (* Message.UnmarshalCBOR *)
  GetAddrs : list bytes -> option Addrs;       (* Message.GetAddrs *)
  SetAddrs : Addrs -> list bytes               (* Message.SetAddrs, on non-nil entries *)
}.

(** What the environment answers during one [handleAnnounce]: the result
    of [Sender.Send], and the run time's choice among the ready cases of
    the select statement. *)
Record Sched : Type := mkSched { sendRes : error; pick : nat }.

(** [choose pick l] is the case the run time takes among the ready cases
    [l]; none when no case is ready. *)
Definition choose {A} (pick : nat) (l : list A) : option A :=
  nth_error l (pick mod List.length l).
Arguments choose : simpl never.

Inductive SendCase : Type := caseSend | caseDone | caseCtx.

Definition readySend (r : Receiver) (ctx : Ctx) : list SendCase :=
  (if Nat.ltb (List.length (outChan r)) outChanCap then [caseSend] else []) ++
  (if done r then [caseDone] else []) ++
  (match ctx with Some _ => [caseCtx] | None => [] end).

Inductive RecvCase : Type := caseCtxDone | caseRecv (a : Announce) | caseClosed.

Definition readyNext (r : Receiver) (ctx : Ctx) : list RecvCase :=
  (match ctx with Some _ => [caseCtxDone] | None => [] end) ++
  (match outChan r with a :: _ => [caseRecv a] | [] => [] end) ++
  (if done r then [caseClosed] else []).

(** [close(ch)] on the done channel and on watchDone. *)
Definition closeDone : M unit :=
  r <- getR ;;
  if done r then panic else modR (set_done true).

Definition closeWatchDone : M unit :=
  r <- getR ;;
  match watchDone r with
  | Some false => modR (set_watchDone (Some true))
  | Some true => panic
  | None => panic
  end.

(** [<-r.watchDone]. *)
Definition awaitWatchDone : M unit :=
  r <- getR ;;
  match watchDone r with
  | Some true => ret tt
  | Some false => block
  | None => block
  end.

Definition watchCtx : M Ctx :=
  fun w => Ret (if watchCancelled w then Some ctxCanceled else None) w.

Definition zeroAnnounce : Announce := mkAnnounce "" "" [].

(** Whether an address list has a nil entry. *)
Definition hasNil (addrs : Addrs) : bool :=
  existsb (fun e => match e with None => true | Some _ => false end) addrs.
Arguments hasNil : simpl never.

Section Receiver.

Context {X : Extern}.

(** [announceCache.update] on the receiver's cache. *)
Definition cacheUpdate (key : string) : M bool :=
  r <- getR ;;
  let (seen, c) := stringLRU.update key (announceCache r) in
  modR (set_announceCache c) ;;
  ret seen.

Definition announceCheck (amsg : Announce) : M error :=
  r <- getR ;;
  if match allowPeer r with
     | Some allow => negb (allow (PeerID_ amsg))
     | None => false
     end
  then ret (Some errSourceNotAllowed)
  else
    Lock ;;
    (* defer r.announceMutex.Unlock() *)
    r <- getR ;;
    if closed r then Unlock ;; ret (Some ErrClosed)
    else
      seen <- cacheUpdate (Cid_String (Cid_ amsg)) ;;
      if seen then Unlock ;; ret (Some errAlreadySeenCid)
      else Unlock ;; ret None.

(** [msg.SetAddrs] calls [Bytes] on every address; on a nil entry, a nil
    interface value, that call panics, before [Send] is reached.
    [r.sender.Send] on a nil sender dereferences it. *)
Definition republish (ctx : Ctx) (amsg : Announce) (res : error) : M error :=
  if hasNil (Addrs_ amsg) then panic
  else
    let msg := mkMessage (Cid_ amsg) (SetAddrs (Addrs_ amsg))
                         (PeerID_String (PeerID_ amsg)) in
    r <- getR ;;
    match sender r with
    | None => panic
    | Some _ => emit (EvSend msg) ;; ret res
    end.

(** The select statement that ends [handleAnnounce]. *)
Definition selectSend (ctx : Ctx) (amsg : Announce) (pick : nat) : M error :=
  r <- getR ;;
  match choose pick (readySend r ctx) with
  | None => block
  | Some caseSend => modR (set_outChan (outChan r ++ [amsg])) ;; ret None
  | Some caseDone => ret (Some ErrClosed)
  | Some caseCtx => ret ctx
  end.

Definition handleAnnounce (ctx : Ctx) (amsg : Announce) (resend_ : bool)
    (env : Sched) : M error :=
  err <- announceCheck amsg ;;
  match err with
  | Some e =>
      if Error_eqb e ErrClosed then ret (Some e)
      else logw LvlInfo "Ignored announcement" ;; ret None
  | None =>
      r <- getR ;;
      let amsg :=
        if filterIPs r
        then mkAnnounce (Cid_ amsg) (PeerID_ amsg) (mautil.FilterPublic (Addrs_ amsg))
        else amsg in
      (if resend_
       then err <- republish ctx amsg (sendRes env) ;;
            match err with
            | Some _ => logw LvlError "Cannot republish announce message"
            | None => logw LvlInfo "Re-published direct announce message in pubsub channel"
            end
       else ret tt) ;;
      selectSend ctx amsg (pick env)
  end.

Definition Direct (ctx : Ctx) (nextCid : Cid) (peerID : PeerID) (addrs : Addrs)
    (env : Sched) : M error :=
  logw LvlInfo "Handling direct announce" ;;
  r <- getR ;;
  handleAnnounce ctx (mkAnnounce nextCid peerID addrs) (resend r) env.

Definition Next (ctx : Ctx) (pick : nat) : M (Announce * error) :=
  r <- getR ;;
  match choose pick (readyNext r ctx) with
  | None => block
  | Some caseCtxDone => ret (zeroAnnounce, ctx)
  | Some (caseRecv amsg) => modR (set_outChan (tl (outChan r))) ;; ret (amsg, None)
  | Some caseClosed => ret (zeroAnnounce, Some ErrClosed)
  end.

Definition UncacheCid (adCid : Cid) : M unit :=
  Lock ;;
  r <- getR ;;
  modR (set_announceCache (stringLRU.remove (Cid_String adCid) (announceCache r))) ;;
  Unlock.

Definition TopicName : M string :=
  r <- getR ;;
  match topic r with
  | Some (TopicH name) => ret name
  | None => panic
  end.

(** What the collaborators answer during [Close]. *)
Record CloseEnv : Type := mkCloseEnv { topicCloseRes : error; senderCloseRes : error }.

(** [Close] from the point where it has cancelled the watcher. *)
Definition closeRelease (env : CloseEnv) : M error :=
  r <- getR ;;
  match cancelPubsub r with
  | Some cancel =>
      match topic r with
      | None => panic
      | Some t =>
          emit (EvTopicClose t) ;;
          callCancel cancel ;;
          ret (option_map (ErrWrap "failed to close pubsub topic") (topicCloseRes env))
      end
  | None =>
      match sender r with
      | Some _ => emit EvSenderClose ;; ret (senderCloseRes env)
      | None => ret None
      end
  end.

Definition Close (env : CloseEnv) : M error :=
  Lock ;;
  r <- getR ;;
  if closed r then ret None
  else
    modR (set_closed true) ;;
    match topicSub r with
    | Some s => emit (EvSubCancel s)
    | None => ret tt
    end ;;
    Unlock ;;
    closeDone ;;
    match cancelWatch r with
    | Some cancel => callCancel cancel ;; awaitWatchDone
    | None => ret tt
    end ;;
    closeRelease env.

(** A [Close] that waits for the watcher goes on from here once the
    watcher has exited. *)
Definition Close_resume (env : CloseEnv) : M error :=
  awaitWatchDone ;; closeRelease env.

(** ** The background watcher *)

(** What [r.topicSub.Next(ctx)] returned. *)
Inductive SubRead : Type :=
| SubMsg (from data : bytes)
| SubErr (err : Error).

(** The environment of one turn of the watcher loop: the message read,
    the result of [r.topic.Subscribe()] should the subscription be
    restarted, and the choice of the select statement. *)
Record WatchIn : Type := mkWatchIn { read : SubRead; resubRes : error; wpick : nat }.

Inductive Loop : Type := Continue | Break.

Definition nextGeneration (s : Subscription) : Subscription :=
  match s with SubH g => SubH (S g) end.

(** Restart of the subscription after a read error. *)
Definition restartSubscription (res : error) : M Loop :=
  logw LvlError "Error reading from pubsub" ;;
  Lock ;;
  r <- getR ;;
  match topicSub r, topic r with
  | Some s, Some t =>
      emit (EvSubCancel s) ;;
      emit (EvSubscribe t) ;;
      modR (set_topicSub (match res with
                          | None => Some (nextGeneration s)
                          | Some _ => None
                          end)) ;;
      Unlock ;;
      match res with
      | Some _ =>
          _ <- TopicName ;;
          logw LvlError "Cannot restart subscription" ;;
          ret Break
      | None => ret Continue
      end
  | _, _ => panic
  end.

(** One turn of the loop of [watch], given what the read returned. *)
Definition watchTurn (i : WatchIn) : M Loop :=
  match read i with
  | SubErr err =>
      if errors_Is err ctxCanceled || errors_Is err ErrSubscriptionCancelled
      then ret Break
      else restartSubscription (resubRes i)
  | SubMsg from data =>
      match peer_IDFromBytes from with
      | None => ret Continue
      | Some srcPeer =>
      match UnmarshalCBOR data with
      | None => logw LvlError "Could not decode pubsub message" ;; ret Continue
      | Some m =>
      match (match mAddrs m with
             | [] => Some []
             | _ :: _ => GetAddrs (mAddrs m)
             end) with
      | None => logw LvlError "Could not decode pubsub message" ;; ret Continue
      | Some addrs =>
          r <- getR ;;
          origin <-
            (if negb (String.eqb (mOrigPeer m) "")
             then
               if String.eqb srcPeer (hostID r)
               then logw LvlDebug "Ignored rebuplished announce from self" ;; ret None
               else
                 match peer_Decode (mOrigPeer m) with
                 | None =>
                     logw LvlError "Cannot read peerID from republished announce" ;;
                     ret None
                 | Some orig =>
                     logw LvlInfo "Handling re-published pubsub announce" ;;
                     ret (Some orig)
                 end
             else logw LvlInfo "Handling pubsub announce" ;; ret (Some srcPeer)) ;;
          match origin with
          | None => ret Continue
          | Some srcPeer =>
              ctx <- watchCtx ;;
              err <- handleAnnounce ctx (mkAnnounce (mCid m) srcPeer addrs) false
                       (mkSched None (wpick i)) ;;
              match err with
              | Some e =>
                  if errors_Is e ErrClosed || errors_Is e ctxCanceled
                  then ret Break
                  else logw LvlError "Cannot process message" ;; ret Continue
              | None => ret Continue
              end
          end
      end end end
  end.

(** [watch] over the reads the subscription answers with.  The call of
    [Next] on a nil subscription dereferences it; with no read left the
    watcher waits in [Next]. *)
Fixpoint watch (ins : list WatchIn) : M unit :=
  r <- getR ;;
  match topicSub r with
  | None => panic
  | Some _ =>
      match ins with
      | [] => block
      | i :: rest =>
          l <- watchTurn i ;;
          match l with
          | Continue => watch rest
          | Break => closeWatchDone
          end
      end
  end.

(** ** Construction *)

Record Host : Type := mkHost { hostPeerID : PeerID }.

(** The options collected by [getOpts]. *)
Record Options : Type := mkOptions {
  optTopic : option Topic;
  optAllowPeer : option AllowPeerFunc;
  optFilterIPs : bool;
  optResend : bool
}.

(** What the collaborators answer during [NewReceiver]. *)
Record NewEnv : Type := mkNewEnv {
  getOptsRes : Error + Options;    (* getOpts(options) *)
  makeTopicRes : error;            (* gossiptopic.MakeTopic *)
  subscribeRes : error;            (* pubsubTopic.Subscribe *)
  senderNewRes : error             (* p2psender.New *)
}.

(** The first part of [NewReceiver]: the topic and, when the topic was
    made here, the cancel function of its scope. *)
Definition joinTopic (p2pHost : option Host) (topicName : string)
    (opts : Options) (env : NewEnv)
    : (Error + option Topic * option CancelFunc) * list Event :=
  match optTopic opts, p2pHost with
  | None, Some _ =>
      if negb (String.eqb topicName "")
      then match makeTopicRes env with
           | Some err => (inl err, [EvMakeTopic topicName])
           | None =>
               (inr (Some (TopicH topicName), Some cancelPubsubFn),
                [EvLog LvlInfo "Created gossip pubsub and joined topic";
                 EvMakeTopic topicName])
           end
      else (inr (None, None), [])
  | pubsubTopic, _ => (inr (pubsubTopic, None), [])
  end.

(** [NewReceiver] returns its result and the calls it made, most recent
    first.  On success the world starts from them. *)
Definition NewReceiver (p2pHost : option Host) (topicName : string)
    (env : NewEnv) : (Error + Receiver) * list Event :=
  match getOptsRes env with
  | inl err => (inl err, [])
  | inr opts =>
  match joinTopic p2pHost topicName opts env with
  | (inl err, tr) => (inl err, tr)
  | (inr (pubsubTopic, cancelPubsub_), tr) =>
  let subscribed : (Error + option Sender * option Subscription * bool) * list Event :=
    match pubsubTopic with
    | Some t =>
        match subscribeRes env with
        | Some err =>
            (inl err,
             match cancelPubsub_ with
             | Some cancel => EvCancel cancel :: EvSubscribe t :: tr
             | None => EvSubscribe t :: tr
             end)
        | None =>
            match senderNewRes env with
            | Some err => (inl err, EvSenderNew :: EvSubscribe t :: tr)
            | None =>
                (inr (Some SenderH, Some (SubH 0), optResend opts),
                 EvSenderNew :: EvSubscribe t :: tr)
            end
        end
    | None => (inr (None, None, false), tr)
    end in
  match subscribed with
  | (inl err, tr) => (inl err, tr)
  | (inr (sender_, topicSub_, resend_), tr) =>
      let r := mkReceiver (optAllowPeer opts) (optFilterIPs opts) resend_ ""
                 (stringLRU.newStringLRU announceCacheSize) false false
                 None None false
                 cancelPubsub_ sender_ pubsubTopic topicSub_ [] in
      match p2pHost with
      | Some h =>
          (inr (mkReceiver (allowPeer r) (filterIPs r) (resend r) (hostPeerID h)
                  (announceCache r) (announceMutex r) (closed r)
                  (Some cancelWatchFn) (Some false) (done r)
                  (cancelPubsub r) (sender r) (topic r) (topicSub r) (outChan r)),
           EvGoWatch :: tr)
      | None => (inr r, tr)
      end
  end
  end
  end.

(** The world a new receiver lives in. *)
Definition worldOf (res : (Error + Receiver) * list Event) : option World :=
  match res with
  | (inr r, tr) => Some (mkWorld r tr false)
  | (inl _, _) => None
  end.

End Receiver.

(** The world with one more event, and with the receiver changed. *)
Definition logged (e : Event) (w : World) : World :=
  mkWorld (rcv w) (e :: trace w) (watchCancelled w).

Definition withRcv (f : Receiver -> Receiver) (w : World) : World :=
  mkWorld (f (rcv w)) (trace w) (watchCancelled w).

(** ** A codec to run the model on concrete inputs

    Peer ids and CIDs print as themselves; a message on the wire is the
    CID, a zero byte and the original peer, without addresses. *)
Module TestCodec.

Fixpoint splitZero (b : bytes) : bytes * bytes :=
  match b with
  | [] => ([], [])
  | x00 :: rest => ([], rest)
  | c :: rest => let (front, back) := splitZero rest in (c :: front, back)
  end.

Definition nonEmpty (s : string) : option string :=
  if String.eqb s "" then None else Some s.

#[export] Instance codec : Extern := {|
  Cid_String := fun c => c;
  PeerID_String := fun p => p;
  peer_Decode := nonEmpty;
  peer_IDFromBytes := fun b => nonEmpty (string_of_list_byte b);
  UnmarshalCBOR := fun b =>
    let (c, o) := splitZero b in
    match c with
    | [] => None
    | _ :: _ => Some (mkMessage (string_of_list_byte c) [] (string_of_list_byte o))
    end;
  GetAddrs := fun _ => None;
  SetAddrs := fun _ => []
|}.

Definition wire (c : Cid) (origPeer : string) : bytes :=
  List.app (list_byte_of_string c) (x00 :: list_byte_of_string origPeer).

Definition allOk (opts : Options) : NewEnv := mkNewEnv (inr opts) None None None.

(** The receiver [NewReceiver] builds without host and topic: only
    [Direct] feeds it. *)
Definition directOnly (opts : Options) : Receiver :=
  mkReceiver (optAllowPeer opts) (optFilterIPs opts) false ""
    (stringLRU.newStringLRU announceCacheSize) false false
    None None false None None None None [].

(** The receiver [NewReceiver] builds for a host on a topic it is given. *)
Definition onTopic (h : Host) (t : Topic) (opts : Options) : Receiver :=
  mkReceiver (optAllowPeer opts) (optFilterIPs opts) (optResend opts) (hostPeerID h)
    (stringLRU.newStringLRU announceCacheSize) false false
    (Some cancelWatchFn) (Some false) false None (Some SenderH) (Some t)
    (Some (SubH 0)) [].

Definition world (r : Receiver) : World := mkWorld r [] false.

Definition options0 : Options := mkOptions None None false false.

(** An allow predicate that rejects the peer P only. *)
Definition denyP : AllowPeerFunc := fun p => negb (String.eqb p "P").

Definition hostH : Host := mkHost "H".
Definition topicT : Topic := TopicH "t".

(** A receiver fed only by [Direct], new. *)
Definition wDirect : World := world (directOnly options0).

(** The same with the CID A in its dedup set. *)
Definition wSeenA : World :=
  withRcv (set_announceCache (stringLRU.mk announceCacheSize ["A"])) wDirect.

(** A receiver that rejects the peer P, closed and with its mutex held. *)
Definition wDenyClosed : World :=
  withRcv (fun r => set_announceMutex true (set_closed true r))
    (world (directOnly (mkOptions None (Some denyP) false false))).

(** A receiver of host H on the topic t, with filterIPs and resend. *)
Definition wTopic : World :=
  world (onTopic hostH topicT (mkOptions (Some topicT) None true true)).

(** The receiver of [wDirect] after a [Close]. *)
Definition wClosed : World :=
  withRcv (fun r => set_done true (set_closed true r)) wDirect.

Definition addr1234 : Multiaddr := [IP4 (mautil.ip4 1 2 3 4); TCP 80].
Definition addr8888 : Multiaddr := [IP4 (mautil.ip4 8 8 8 8); TCP 2].
Definition addrLoop : Multiaddr := [IP4 (mautil.ip4 127 0 0 1); TCP 1].

Definition annA : Announce := mkAnnounce "A" "P1" [Some addr1234].
Definition annMixed : Announce := mkAnnounce "D" "P1" [Some addrLoop; None; Some addr8888].
Definition annLoop : Announce := mkAnnounce "E" "P1" [Some addrLoop].
Definition annP : Announce := mkAnnounce "A" "P" [Some addr1234].

Definition sendOk : Sched := mkSched None 0.
Definition sendFails : Sched := mkSched (Some (ErrOther "publish failed")) 0.
Definition closeOk : CloseEnv := mkCloseEnv None None.

(** A relay sent by the peer R that names H as the original peer, and
    the same relay sent by H itself. *)
Definition relayByR : WatchIn :=
  mkWatchIn (SubMsg (list_byte_of_string "R") (wire "C" "H")) None 0.
Definition relayByH : WatchIn :=
  mkWatchIn (SubMsg (list_byte_of_string "H") (wire "C" "H")) None 0.

(** [wDirect] with the announcement A waiting in the output channel. *)
Definition wFull : World :=
  withRcv (fun r => set_outChan [annA]
                      (set_announceCache (stringLRU.mk announceCacheSize ["A"]) r))
    wDirect.

(** [wTopic] with the CID A in its dedup set. *)
Definition wTopicSeenA : World :=
  withRcv (set_announceCache (stringLRU.mk announceCacheSize ["A"])) wTopic.

(** [wTopic] marked closed, its watcher still running. *)
Definition wTopicClosed : World :=
  withRcv (fun r => set_done true (set_closed true r)) wTopic.

Definition annB : Announce := mkAnnounce "B" "P1" [Some addr1234].

(** Reads of the subscription: the cancellation, a failure after which
    the subscription can be opened again and one after which it cannot,
    a message that does not decode, a first-hop message of the peer R and
    a relay sent by R for the peer S. *)
Definition readCancel : WatchIn := mkWatchIn (SubErr ctxCanceled) None 0.
Definition readBroken : WatchIn := mkWatchIn (SubErr (ErrOther "reset")) None 0.
Definition readBrokenForGood : WatchIn :=
  mkWatchIn (SubErr (ErrOther "reset")) (Some (ErrOther "topic closed")) 0.
Definition readGarbage : WatchIn :=
  mkWatchIn (SubMsg (list_byte_of_string "R") []) None 0.
Definition firstHopByR : WatchIn :=
  mkWatchIn (SubMsg (list_byte_of_string "R") (wire "C" "")) None 0.
Definition relayByRForS : WatchIn :=
  mkWatchIn (SubMsg (list_byte_of_string "R") (wire "C" "S")) None 0.

(** The test table of [TestFilterPublic]. *)
Definition testAddrs : Addrs :=
  map (@Some Multiaddr)
    [ [IP4 (mautil.ip4 10 255 0 0); TCP 443];
      [IP4 (mautil.ip4 11 0 0 0); TCP 80];
      [IP6 (mautil.ip6_hi 0xfc00); TCP 1717];
      [IP6 (mautil.ip6_hi 0xfe00); TCP 8080];
      [IP4 (mautil.ip4 192 168 11 22); TCP 9999];
      [DNS "example.net"; TCP 1234];
      [IP4 (mautil.ip4 127 0 0 1); TCP 9999];
      [DNS "localhost"; TCP 1234];
      [IP6 0; TCP 3105; HTTP];
      [IP4 (mautil.ip4 0 0 0 0); TCP 3105] ]%Z.

End TestCodec.

(** ** Notions used in the statements *)

(** The peer passes the allow predicate, if there is one. *)
Definition allowed (r : Receiver) (p : PeerID) : Prop :=
  match allowPeer r with
  | Some allow => allow p = true
  | None => True
  end.

(** The results that may escape [handleAnnounce]: nil, [ErrClosed] and the
    error of the caller's context. *)
Definition escapes (ctx : Ctx) (e : error) : Prop :=
  e = None \/ e = Some ErrClosed \/ (e <> None /\ e = ctx).

(** The dedup set after a key that is present was promoted. *)
Definition promoted (key : string) (l : stringLRU.t) : stringLRU.t :=
  stringLRU.mk (stringLRU.cap l) (key :: stringLRU.drop key (stringLRU.keys l)).

(** The announcement as it is delivered: with filterIPs only its public
    addresses are left. *)
Definition filtered (r : Receiver) (amsg : Announce) : Announce :=
  if filterIPs r
  then mkAnnounce (Cid_ amsg) (PeerID_ amsg) (mautil.FilterPublic (Addrs_ amsg))
  else amsg.

(** The receiver after an announcement with a new CID was admitted and
    sent to the output channel. *)
Definition delivered {X : Extern} (amsg : Announce) (r : Receiver) : Receiver :=
  set_outChan (outChan r ++ [filtered r amsg])
    (set_announceCache
       (snd (stringLRU.update (Cid_String (Cid_ amsg)) (announceCache r))) r).

(** The message [republish] hands to the sender. *)
Definition republished {X : Extern} (amsg : Announce) : Message :=
  mkMessage (Cid_ amsg) (SetAddrs (Addrs_ amsg)) (PeerID_String (PeerID_ amsg)).

(** The world after an announcement with a new CID was admitted and its
    republish failed: the CID is cached, Send was called and the failure
    is logged at error level. *)
Definition afterFailedRepublish {X : Extern} (amsg : Announce) (w : World) : World :=
  mkWorld
    (set_announceCache
       (snd (stringLRU.update (Cid_String (Cid_ amsg)) (announceCache (rcv w)))) (rcv w))
    (EvLog LvlError "Cannot republish announce message"
       :: EvSend (republished (filtered (rcv w) amsg)) :: trace w)
    (watchCancelled w).

(** The number of nil entries of an address list. *)
Definition nilEntries (addrs : Addrs) : nat :=
  List.length (filter (fun e => match e with None => true | Some _ => false end) addrs).

(** The output channel after an outcome, whichever it is. *)
Definition finalWorld {A} (o : Outcome A) : World :=
  match o with
  | Ret _ w => w
  | Blocked w => w
  | Panic w => w
  end.

(** ** Notions used for the receiver as a whole *)

(** The messages handed to the sender, most recent first. *)
Fixpoint sent (tr : list Event) : list Message :=
  match tr with
  | [] => []
  | EvSend m :: rest => m :: sent rest
  | _ :: rest => sent rest
  end.

(** The world after the admission step of [handleAnnounce] let an
    announcement through: the CID is in the dedup set and, with resend,
    Send was called and its result logged. *)
Definition afterAdmission {X : Extern} (amsg : Announce) (resend_ : bool)
    (res : error) (w : World) : World :=
  mkWorld
    (set_announceCache
       (snd (stringLRU.update (Cid_String (Cid_ amsg)) (announceCache (rcv w)))) (rcv w))
    (if resend_
     then (match res with
           | Some _ => EvLog LvlError "Cannot republish announce message"
           | None => EvLog LvlInfo "Re-published direct announce message in pubsub channel"
           end) :: EvSend (republished (filtered (rcv w) amsg)) :: trace w
     else trace w)
    (watchCancelled w).

(** What holds of a receiver from its construction on. *)
Record Inv (r : Receiver) : Prop := mkInv {
  inv_chan : List.length (outChan r) <= outChanCap;
  inv_resend : resend r = true -> sender r <> None;
  inv_done : done r = true -> closed r = true;
  inv_owner : cancelPubsub r <> None -> topic r <> None;
  inv_sub : topicSub r <> None -> topic r <> None
}.

(** The calls that can be made on a receiver, with what the environment
    answers.  [OpSelect] is a send that waited and is tried again,
    [OpCloseResume] a [Close] that waited for the watcher. *)
Inductive Op : Type :=
| OpDirect (ctx : Ctx) (c : Cid) (p : PeerID) (addrs : Addrs) (env : Sched)
| OpNext (ctx : Ctx) (pick : nat)
| OpUncacheCid (c : Cid)
| OpClose (env : CloseEnv)
| OpCloseResume (env : CloseEnv)
| OpWatch (ins : list WatchIn)
| OpSelect (ctx : Ctx) (amsg : Announce) (pick : nat).

(** The world a call leaves, whether it returned, waits or panicked. *)
Definition after {X : Extern} (op : Op) (w : World) : World :=
  match op with
  | OpDirect ctx c p addrs env => finalWorld (Direct ctx c p addrs env w)
  | OpNext ctx pick => finalWorld (Next ctx pick w)
  | OpUncacheCid c => finalWorld (UncacheCid c w)
  | OpClose env => finalWorld (Close env w)
  | OpCloseResume env => finalWorld (Close_resume env w)
  | OpWatch ins => finalWorld (watch ins w)
  | OpSelect ctx amsg pick => finalWorld (selectSend ctx amsg pick w)
  end.

(** The worlds a receiver built by [NewReceiver] can get into. *)
Inductive Reachable {X : Extern} : World -> Prop :=
| reach_new (p2pHost : option Host) (topicName : string) (env : NewEnv)
    (r : Receiver) (tr : list Event) :
    NewReceiver p2pHost topicName env = (inr r, tr) ->
    Reachable (mkWorld r tr false)
| reach_step (w : World) (op : Op) :
    Reachable w -> Reachable (after op w).

(** The invariant seen as a relation between two worlds. *)
Definition keepsInv (a b : World) : Prop := Inv (rcv a) -> Inv (rcv b).

(** A computation keeps a relation between the world it starts in and the
    world it leaves. *)
Definition keeps {A} (R : World -> World -> Prop) (m : M A) : Prop :=
  forall w, R w (finalWorld (m w)).

(** The addresses the watcher reads from a message: [GetAddrs] is only
    called when the message has addresses. *)
Definition decodedAddrs {X : Extern} (m : Message) : option Addrs :=
  match mAddrs m with
  | [] => Some []
  | _ :: _ => GetAddrs (mAddrs m)
  end.

(** The origin the watcher gives to a message sent by [src]: the sender
    itself for a first-hop message; for a relay the decoded OrigPeer,
    unless the relay was sent by this host or OrigPeer does not decode. *)
Definition effectiveOrigin {X : Extern} (r : Receiver) (src : PeerID) (m : Message)
    : option PeerID :=
  if String.eqb (mOrigPeer m) "" then Some src
  else if String.eqb src (hostID r) then None
  else peer_Decode (mOrigPeer m).

(** The context the watcher runs under, as it is when looked at. *)
Definition watchCtxOf (w : World) : Ctx :=
  if watchCancelled w then Some ctxCanceled else None.

(** The read errors on which the watcher ends as on a normal shutdown. *)
Definition isShutdown (err : Error) : bool :=
  errors_Is err ctxCanceled || errors_Is err ErrSubscriptionCancelled.

(** ** Tactics that run the operations *)

Ltac run :=
  unfold Direct, handleAnnounce, announceCheck, cacheUpdate, republish, selectSend,
    UncacheCid, Next, Lock, Unlock, closeDone, logw, emit, modR, getR,
    bind, ret, block, panic, logged, withRcv, allowed in *.

Ltac open_world w :=
  let r := fresh "r" in
  destruct w as [r ? ?]; destruct r; simpl in *.

(** * Properties *)

(** ** The choice of a select statement *)

Lemma choose_nil {A} (pick : nat) : choose pick (@nil A) = None.
Proof. unfold choose. simpl. destruct pick; reflexivity. Qed.

Lemma choose_single {A} (pick : nat) (x : A) : choose pick [x] = Some x.
Proof. unfold choose. simpl List.length. rewrite Nat.mod_1_r. reflexivity. Qed.

Lemma choose_In {A} (pick : nat) (l : list A) (x : A) :
  choose pick l = Some x -> In x l.
Proof. unfold choose. apply nth_error_In. Qed.

Lemma choose_none {A} (pick : nat) (l : list A) :
  choose pick l = None -> l = [].
Proof.
  unfold choose. intros H. destruct l as [|a l]; [reflexivity|].
  apply nth_error_None in H.
  pose proof (Nat.mod_upper_bound pick (List.length (a :: l))) as B.
  simpl in *. lia.
Qed.

Lemma readySend_caseCtx (r : Receiver) (ctx : Ctx) :
  In caseCtx (readySend r ctx) -> ctx <> None.
Proof.
  unfold readySend. intros H.
  repeat (apply in_app_or in H; destruct H as [H|H]).
  - destruct (Nat.ltb _ _); simpl in H; intuition discriminate.
  - destruct (done r); simpl in H; intuition discriminate.
  - destruct ctx; [discriminate | contradiction].
Qed.

Lemma readySend_caseDone (r : Receiver) (ctx : Ctx) :
  In caseDone (readySend r ctx) -> done r = true.
Proof.
  unfold readySend. intros H.
  repeat (apply in_app_or in H; destruct H as [H|H]).
  - destruct (Nat.ltb _ _); simpl in H; intuition discriminate.
  - destruct (done r); [reflexivity | contradiction].
  - destruct ctx; simpl in H; intuition discriminate.
Qed.

(** ** The dedup set *)

Lemma drop_not_mem (key : string) (ks : list string) :
  existsb (String.eqb key) (stringLRU.drop key ks) = false.
Proof.
  induction ks as [|k ks IH]; simpl; [reflexivity|].
  destruct (String.eqb key k) eqn:E; simpl; [exact IH|].
  rewrite E. exact IH.
Qed.

Lemma mem_remove (key : string) (l : stringLRU.t) :
  stringLRU.mem key (stringLRU.remove key l) = false.
Proof. unfold stringLRU.mem, stringLRU.remove. simpl. apply drop_not_mem. Qed.

Lemma update_seen (key : string) (l : stringLRU.t) :
  stringLRU.mem key l = true ->
  stringLRU.update key l =
  (true, stringLRU.mk (stringLRU.cap l) (key :: stringLRU.drop key (stringLRU.keys l))).
Proof. intros H. unfold stringLRU.update. rewrite H. reflexivity. Qed.

Lemma update_fresh (key : string) (l : stringLRU.t) :
  stringLRU.mem key l = false ->
  fst (stringLRU.update key l) = false /\
  stringLRU.mem key (snd (stringLRU.update key l)) = true.
Proof.
  intros H. unfold stringLRU.update. rewrite H.
  destruct (Nat.leb _ _); simpl; unfold stringLRU.mem; simpl;
    rewrite String.eqb_refl; auto.
Qed.

(** ** The address filter *)

Lemma keepAddr_public (ma : Multiaddr) :
  mautil.keepAddr ma = true -> mautil.nonPublicAddr ma = false.
Proof.
  destruct ma as [|c rest]; [reflexivity|].
  unfold mautil.keepAddr, mautil.nonPublicAddr, mautil.isPublicIP.
  destruct c; try reflexivity; intros H; apply negb_true_iff in H;
    apply orb_false_iff in H; destruct H as [H _];
    apply orb_false_iff in H; destruct H as [H _]; exact H.
Qed.

Lemma FilterPublic_public (addrs : Addrs) (ma : Multiaddr) :
  In (Some ma) (mautil.FilterPublic addrs) -> mautil.nonPublicAddr ma = false.
Proof.
  unfold mautil.FilterPublic. intros H. apply filter_In in H.
  destruct H as [_ H]. apply keepAddr_public. exact H.
Qed.

Lemma FilterPublic_nil_entries (addrs : Addrs) :
  nilEntries (mautil.FilterPublic addrs) = nilEntries addrs.
Proof.
  unfold nilEntries, mautil.FilterPublic.
  induction addrs as [|[ma|] l IH]; simpl; [reflexivity| |].
  - destruct (mautil.keepAddr ma); simpl; exact IH.
  - f_equal. exact IH.
Qed.

Lemma hasNil_FilterPublic (addrs : Addrs) :
  hasNil (mautil.FilterPublic addrs) = hasNil addrs.
Proof.
  unfold hasNil, mautil.FilterPublic.
  induction addrs as [|[ma|] l IH]; simpl; [reflexivity| |reflexivity].
  destruct (mautil.keepAddr ma); simpl; exact IH.
Qed.

Lemma hasNil_filtered (r : Receiver) (amsg : Announce) :
  hasNil (Addrs_ (filtered r amsg)) = hasNil (Addrs_ amsg).
Proof.
  unfold filtered. destruct (filterIPs r); [apply hasNil_FilterPublic|reflexivity].
Qed.

(** ** Admission *)

Section Admission.

Context {X : Extern}.

(** C10.  An announcement whose peer the allow predicate rejects makes
    [handleAnnounce], and so [Direct], return nil whatever the closed
    flag, the mutex and the dedup set are: the check comes before the
    lock is taken, and the receiver is left as it was (only the log
    grows). *)
Theorem rejected_peer_returns_nil
    (w : World) (ctx : Ctx) (amsg : Announce) (resend_ : bool) (env : Sched)
    (allow : AllowPeerFunc) (addrs : Addrs) :
  allowPeer (rcv w) = Some allow ->
  allow (PeerID_ amsg) = false ->
  handleAnnounce ctx amsg resend_ env w
    = Ret None (logged (EvLog LvlInfo "Ignored announcement") w) /\
  Direct ctx (Cid_ amsg) (PeerID_ amsg) addrs env w
    = Ret None (logged (EvLog LvlInfo "Ignored announcement")
                  (logged (EvLog LvlInfo "Handling direct announce") w)).
Proof.
  intros Ha Hr. run. open_world w. subst. rewrite Hr. simpl. auto.
Qed.

(** C4.  Whatever the input, a call of [handleAnnounce], and so of
    [Direct], that returns gives nil, [ErrClosed] or the error of the
    caller's context.  The call returns unless the mutex is held or no
    case of the select statement is ready (it waits), or it republishes
    an address list with a nil entry or without a sender (it panics).  A
    rejected peer, a seen CID and a failed republish all end in one of
    the three results. *)
Theorem handleAnnounce_escapes
    (w : World) (ctx : Ctx) (amsg : Announce) (resend_ : bool) (env : Sched) :
  match handleAnnounce ctx amsg resend_ env w with
  | Ret e _ => escapes ctx e
  | Blocked _ => announceMutex (rcv w) = true \/ readySend (rcv w) ctx = []
  | Panic _ =>
      resend_ = true /\ (hasNil (Addrs_ amsg) = true \/ sender (rcv w) = None)
  end /\
  match Direct ctx (Cid_ amsg) (PeerID_ amsg) (Addrs_ amsg) env w with
  | Ret e _ => escapes ctx e
  | Blocked _ => announceMutex (rcv w) = true \/ readySend (rcv w) ctx = []
  | Panic _ =>
      resend (rcv w) = true /\
      (hasNil (Addrs_ amsg) = true \/ sender (rcv w) = None)
  end.
Proof.
  assert (G : forall w resend_ amsg,
    match handleAnnounce ctx amsg resend_ env w with
    | Ret e _ => escapes ctx e
    | Blocked _ => announceMutex (rcv w) = true \/ readySend (rcv w) ctx = []
    | Panic _ =>
        resend_ = true /\ (hasNil (Addrs_ amsg) = true \/ sender (rcv w) = None)
    end).
  { clear. intros w resend_ amsg. unfold escapes. run. open_world w.
    destruct allowPeer0 as [allow|];
      [destruct (allow (PeerID_ amsg)); simpl; auto|];
      (destruct announceMutex0; simpl; auto;
       destruct closed0; simpl; auto;
       destruct (stringLRU.update _ _) as [[|] c]; simpl; auto;
       destruct resend_; simpl;
       [destruct filterIPs0; simpl; rewrite ?hasNil_FilterPublic;
        (destruct (hasNil (Addrs_ amsg)); simpl; auto;
         destruct sender0; simpl; auto; destruct (sendRes env); simpl)|];
       match goal with
       | |- context [choose ?p ?l] =>
           destruct (choose p l) as [[| |]|] eqn:E; simpl; auto
       end;
       try (apply choose_In, readySend_caseCtx in E; auto);
       try (apply choose_none in E; right; exact E)). }
  split; [apply G|].
  specialize (G (logged (EvLog LvlInfo "Handling direct announce") w)
                (resend (rcv w)) (mkAnnounce (Cid_ amsg) (PeerID_ amsg) (Addrs_ amsg))).
  exact G.
Qed.

Lemma not_rejected (r : Receiver) (p : PeerID) :
  allowed r p ->
  match allowPeer r with
  | Some allow => negb (allow p)
  | None => false
  end = false.
Proof.
  unfold allowed. destruct (allowPeer r); [intros ->|]; reflexivity.
Qed.

Lemma Direct_eq (ctx : Ctx) (c : Cid) (p : PeerID) (addrs : Addrs)
    (env : Sched) (w : World) :
  Direct ctx c p addrs env w
  = handleAnnounce ctx (mkAnnounce c p addrs) (resend (rcv w)) env
      (logged (EvLog LvlInfo "Handling direct announce") w).
Proof. reflexivity. Qed.

Lemma selectSend_eq (ctx : Ctx) (amsg : Announce) (pick : nat) (w : World) :
  selectSend ctx amsg pick w
  = match choose pick (readySend (rcv w) ctx) with
    | None => Blocked w
    | Some caseSend => Ret None (withRcv (set_outChan (outChan (rcv w) ++ [amsg])) w)
    | Some caseDone => Ret (Some ErrClosed) w
    | Some caseCtx => Ret ctx w
    end.
Proof.
  unfold selectSend, bind, getR, modR, ret, block, withRcv.
  destruct (choose _ _) as [[| |]|]; reflexivity.
Qed.

Lemma Next_eq (ctx : Ctx) (pick : nat) (w : World) :
  Next ctx pick w
  = match choose pick (readyNext (rcv w) ctx) with
    | None => Blocked w
    | Some caseCtxDone => Ret (zeroAnnounce, ctx) w
    | Some (caseRecv amsg) =>
        Ret (amsg, None) (withRcv (set_outChan (tl (outChan (rcv w)))) w)
    | Some caseClosed => Ret (zeroAnnounce, Some ErrClosed) w
    end.
Proof.
  unfold Next, bind, getR, modR, ret, block, withRcv.
  destruct (choose _ _) as [[| |]|]; reflexivity.
Qed.

Lemma seen_dropped
    (w : World) (ctx : Ctx) (amsg : Announce) (resend_ : bool) (env : Sched) :
  allowed (rcv w) (PeerID_ amsg) ->
  closed (rcv w) = false ->
  announceMutex (rcv w) = false ->
  stringLRU.mem (Cid_String (Cid_ amsg)) (announceCache (rcv w)) = true ->
  handleAnnounce ctx amsg resend_ env w
  = Ret None
      (logged (EvLog LvlInfo "Ignored announcement")
         (withRcv (set_announceCache
                     (promoted (Cid_String (Cid_ amsg)) (announceCache (rcv w)))) w)).
Proof.
  intros Ha Hc Hm Hs. apply not_rejected in Ha.
  run. open_world w. subst.
  rewrite Ha. simpl. rewrite (update_seen _ _ Hs). reflexivity.
Qed.

Lemma fresh_delivered
    (w : World) (ctx : Ctx) (amsg : Announce) (resend_ : bool) (env : Sched) :
  allowed (rcv w) (PeerID_ amsg) ->
  closed (rcv w) = false ->
  announceMutex (rcv w) = false ->
  stringLRU.mem (Cid_String (Cid_ amsg)) (announceCache (rcv w)) = false ->
  (resend_ = true -> sender (rcv w) <> None) ->
  (resend_ = true -> hasNil (Addrs_ amsg) = false) ->
  choose (pick env) (readySend (rcv w) ctx) = Some caseSend ->
  exists tr,
    handleAnnounce ctx amsg resend_ env w
    = Ret None (mkWorld (delivered amsg (rcv w)) tr (watchCancelled w)).
Proof.
  intros Ha Hc Hm Hs Hsend Hnil Hpick. apply not_rejected in Ha.
  destruct (update_fresh _ _ Hs) as [U1 _].
  unfold handleAnnounce, announceCheck, cacheUpdate, republish, delivered, filtered.
  unfold Lock, Unlock, logw, emit, modR, getR, bind, ret, block, panic.
  open_world w. subst. rewrite Ha. simpl.
  destruct (stringLRU.update _ announceCache0) as [seen c]. simpl in U1.
  subst seen. simpl.
  unfold readySend in Hpick; simpl in Hpick.
  destruct resend_; simpl.
  - destruct sender0 as [sd|]; [|exfalso; apply Hsend; reflexivity].
    specialize (Hnil eq_refl).
    destruct filterIPs0; simpl; rewrite ?hasNil_FilterPublic; rewrite Hnil; simpl;
      destruct (sendRes env); simpl; eexists; rewrite selectSend_eq;
      unfold readySend; simpl; rewrite Hpick; reflexivity.
  - eexists; rewrite selectSend_eq; unfold readySend; simpl.
    rewrite Hpick. reflexivity.
Qed.

(** Two admission checks of the same new CID, one after the other as the
    mutex orders them: the first passes and the second answers that the
    CID was seen, whichever caller gets to the output channel first. *)
Lemma admission_once (w : World) (amsg : Announce) :
  allowed (rcv w) (PeerID_ amsg) ->
  closed (rcv w) = false ->
  announceMutex (rcv w) = false ->
  stringLRU.mem (Cid_String (Cid_ amsg)) (announceCache (rcv w)) = false ->
  exists w',
    (e1 <- announceCheck amsg ;; e2 <- announceCheck amsg ;; ret (e1, e2)) w
    = Ret (None, Some errAlreadySeenCid) w' /\
    outChan (rcv w') = outChan (rcv w).
Proof.
  intros Ha Hc Hm Hs. apply not_rejected in Ha.
  destruct (update_fresh _ _ Hs) as [U1 U2].
  run. open_world w. subst. rewrite Ha. simpl.
  destruct (stringLRU.update _ announceCache0) as [seen c]. simpl in U1, U2.
  subst seen. simpl. rewrite Ha. simpl. rewrite (update_seen _ _ U2). simpl.
  eexists. split; reflexivity.
Qed.

(** C3.  An announcement that gets to the dedup step (its peer is
    allowed, the receiver is open, the lock is free) with a CID that is
    in the dedup set is dropped: [handleAnnounce] returns nil, the output
    channel is as before, the drop is logged at info level and the CID
    is now the most recently used key.  So of two [Direct] calls with the
    same new CID only the first delivers: one [Next] returns that
    announcement and a second [Next] ends with the deadline error.  (With
    resend on, the first call gets that far only with a sender and an
    address list without nil entry.) *)
Theorem duplicate_cid_dropped
    (w : World) (ctx : Ctx) (amsg : Announce) (resend_ : bool) (env : Sched) :
  allowed (rcv w) (PeerID_ amsg) ->
  closed (rcv w) = false ->
  announceMutex (rcv w) = false ->
  (stringLRU.mem (Cid_String (Cid_ amsg)) (announceCache (rcv w)) = true ->
   handleAnnounce ctx amsg resend_ env w
     = Ret None
         (logged (EvLog LvlInfo "Ignored announcement")
            (withRcv (set_announceCache
                        (promoted (Cid_String (Cid_ amsg)) (announceCache (rcv w)))) w)))
  /\
  (stringLRU.mem (Cid_String (Cid_ amsg)) (announceCache (rcv w)) = false ->
   (resend (rcv w) = true -> sender (rcv w) <> None) ->
   (resend (rcv w) = true -> hasNil (Addrs_ amsg) = false) ->
   outChan (rcv w) = [] ->
   done (rcv w) = false ->
   forall (env2 : Sched) (pick1 pick2 : nat),
   exists w',
     (e1 <- Direct None (Cid_ amsg) (PeerID_ amsg) (Addrs_ amsg) env ;;
      e2 <- Direct None (Cid_ amsg) (PeerID_ amsg) (Addrs_ amsg) env2 ;;
      n1 <- Next None pick1 ;;
      n2 <- Next (Some ctxDeadlineExceeded) pick2 ;;
      ret (e1, e2, n1, n2)) w
     = Ret (None, None, (filtered (rcv w) amsg, None),
            (zeroAnnounce, Some ctxDeadlineExceeded)) w').
Proof.
  intros Ha Hc Hm. split.
  - intros Hs. apply seen_dropped; assumption.
  - intros Hs Hsend Hnil Ho Hd env2 pick1 pick2.
    set (hello := EvLog LvlInfo "Handling direct announce").
    set (a := mkAnnounce (Cid_ amsg) (PeerID_ amsg) (Addrs_ amsg)).
    assert (Ea : filtered (rcv w) a = filtered (rcv w) amsg).
    { unfold filtered, a. destruct amsg; reflexivity. }
    destruct (fresh_delivered (logged hello w) None a (resend (rcv w)) env)
      as [tr1 E1]; try assumption.
    { simpl. unfold readySend. rewrite Ho, Hd. apply choose_single. }
    unfold bind. rewrite Direct_eq. fold hello a. rewrite E1.
    rewrite Direct_eq. fold hello a.
    rewrite seen_dropped; try assumption.
    2:{ simpl. apply (update_fresh _ _ Hs). }
    rewrite Next_eq. unfold readyNext. simpl. rewrite Ho, Hd. simpl.
    rewrite ?choose_single.
    rewrite Next_eq. unfold readyNext. simpl. rewrite Hd. simpl.
    rewrite ?choose_single. rewrite Ea.
    eexists. reflexivity.
Qed.

Lemma UncacheCid_eq (c : Cid) (w : World) :
  announceMutex (rcv w) = false ->
  UncacheCid c w
  = Ret tt (withRcv (set_announceCache
                       (stringLRU.remove (Cid_String c) (announceCache (rcv w)))) w).
Proof.
  intros Hm. run. open_world w. subst. reflexivity.
Qed.

(** C6.  For a CID that is in the dedup set of an open receiver, a
    re-announcement is dropped as already seen (nothing is added to the
    output channel), while after [UncacheCid] of that CID the same
    re-announcement is admitted and sent to the output channel (with
    resend, given a sender and an address list without nil entry, so
    that the republish gets to [Send]). *)
Theorem uncache_readmits
    (w : World) (ctx : Ctx) (amsg : Announce) (resend_ : bool) (env : Sched) :
  allowed (rcv w) (PeerID_ amsg) ->
  closed (rcv w) = false ->
  announceMutex (rcv w) = false ->
  stringLRU.mem (Cid_String (Cid_ amsg)) (announceCache (rcv w)) = true ->
  (resend_ = true -> sender (rcv w) <> None) ->
  (resend_ = true -> hasNil (Addrs_ amsg) = false) ->
  choose (pick env) (readySend (rcv w) ctx) = Some caseSend ->
  (exists w1,
     handleAnnounce ctx amsg resend_ env w = Ret None w1 /\
     outChan (rcv w1) = outChan (rcv w)) /\
  (exists w2,
     (UncacheCid (Cid_ amsg) ;; handleAnnounce ctx amsg resend_ env) w = Ret None w2 /\
     outChan (rcv w2) = outChan (rcv w) ++ [filtered (rcv w) amsg])%list.
Proof.
  intros Ha Hc Hm Hs Hsend Hnil Hpick. split.
  - rewrite seen_dropped by assumption. eexists. split; reflexivity.
  - unfold bind. rewrite UncacheCid_eq by assumption.
    destruct (fresh_delivered
                (withRcv (set_announceCache
                            (stringLRU.remove (Cid_String (Cid_ amsg))
                               (announceCache (rcv w)))) w)
                ctx amsg resend_ env) as [tr E]; try assumption.
    { simpl. apply mem_remove. }
    rewrite E. eexists. split; reflexivity.
Qed.

(** C7.  When an announcement that passes the admission check (allowed
    peer, open receiver, CID new to the dedup set) is handled with resend,
    its addresses are encoded (none of them is nil) and the sender then
    fails, [handleAnnounce] logs the failure and goes on to the
    delivery step as it is: the announcement is sent to the output
    channel and nil is returned, or the select statement ends with
    [ErrClosed] or the context error, or waits. *)
Theorem republish_failure_not_fatal
    (w : World) (ctx : Ctx) (amsg : Announce) (env : Sched) (err : Error) :
  allowed (rcv w) (PeerID_ amsg) ->
  closed (rcv w) = false ->
  announceMutex (rcv w) = false ->
  fst (stringLRU.update (Cid_String (Cid_ amsg)) (announceCache (rcv w))) = false ->
  sender (rcv w) <> None ->
  hasNil (Addrs_ amsg) = false ->
  sendRes env = Some err ->
  handleAnnounce ctx amsg true env w
  = match choose (pick env) (readySend (rcv w) ctx) with
    | Some caseSend =>
        Ret None
          (withRcv (set_outChan (outChan (rcv w) ++ [filtered (rcv w) amsg]))
             (afterFailedRepublish amsg w))
    | Some caseDone => Ret (Some ErrClosed) (afterFailedRepublish amsg w)
    | Some caseCtx => Ret ctx (afterFailedRepublish amsg w)
    | None => Blocked (afterFailedRepublish amsg w)
    end.
Proof.
  intros Ha Hc Hm U1 Hsend Hnil Hres. apply not_rejected in Ha.
  unfold handleAnnounce, announceCheck, cacheUpdate, republish,
    afterFailedRepublish, republished, filtered.
  unfold Lock, Unlock, logw, emit, modR, getR, bind, ret, block, panic, withRcv.
  open_world w. subst. rewrite Ha. simpl.
  destruct (stringLRU.update _ announceCache0) as [seen c]. simpl in U1.
  subst seen. simpl.
  destruct sender0 as [sd|]; [|exfalso; apply Hsend; reflexivity].
  destruct filterIPs0; simpl; rewrite ?hasNil_FilterPublic; rewrite Hnil; simpl;
    rewrite Hres; simpl; rewrite selectSend_eq; unfold readySend, withRcv; simpl;
    reflexivity.
Qed.

(** C5.  With filterIPs on, whatever [handleAnnounce] adds to the output
    channel is the announcement with its address list replaced by
    [FilterPublic] of the incoming list; no address of that list starts
    with a loopback, link-local or private IP, and the nil entries are
    all kept.  An admitted announcement is sent whatever is left of its
    addresses, also when nothing is (with resend, given a sender and no
    nil entry, so that the republish does not panic). *)
Theorem filterIPs_delivers_public_only
    (w : World) (ctx : Ctx) (amsg : Announce) (resend_ : bool) (env : Sched) :
  filterIPs (rcv w) = true ->
  let out := mkAnnounce (Cid_ amsg) (PeerID_ amsg) (mautil.FilterPublic (Addrs_ amsg)) in
  let after := outChan (rcv (finalWorld (handleAnnounce ctx amsg resend_ env w))) in
  (after = outChan (rcv w) \/ after = (outChan (rcv w) ++ [out])%list) /\
  (forall ma, In (Some ma) (Addrs_ out) -> mautil.nonPublicAddr ma = false) /\
  nilEntries (Addrs_ out) = nilEntries (Addrs_ amsg) /\
  (allowed (rcv w) (PeerID_ amsg) ->
   closed (rcv w) = false ->
   announceMutex (rcv w) = false ->
   stringLRU.mem (Cid_String (Cid_ amsg)) (announceCache (rcv w)) = false ->
   (resend_ = true -> sender (rcv w) <> None) ->
   (resend_ = true -> hasNil (Addrs_ amsg) = false) ->
   choose (pick env) (readySend (rcv w) ctx) = Some caseSend ->
   exists w',
     handleAnnounce ctx amsg resend_ env w = Ret None w' /\
     outChan (rcv w') = (outChan (rcv w) ++ [out])%list).
Proof.
  intros Hf out after. repeat split.
  - subst after out. run. open_world w. subst.
    destruct allowPeer0 as [allow|];
      [destruct (allow (PeerID_ amsg)); simpl; auto|];
      (destruct announceMutex0; simpl; auto;
       destruct closed0; simpl; auto;
       destruct (stringLRU.update _ _) as [[|] c]; simpl; auto;
       destruct resend_; simpl;
       [rewrite ?hasNil_FilterPublic;
        (destruct (hasNil (Addrs_ amsg)); simpl; auto;
         destruct sender0; simpl; auto; destruct (sendRes env); simpl)|];
       match goal with
       | |- context [choose ?p ?l] =>
           destruct (choose p l) as [[| |]|] eqn:E; simpl; auto
       end).
  - intros ma. apply FilterPublic_public.
  - apply FilterPublic_nil_entries.
  - intros Ha Hc Hm Hs Hsend Hnil Hpick.
    destruct (fresh_delivered w ctx amsg resend_ env) as [tr E]; try assumption.
    rewrite E. eexists. split; [reflexivity|].
    simpl. unfold filtered. rewrite Hf. reflexivity.
Qed.

End Admission.

(** ** Shutdown *)

Section Shutdown.

Context {X : Extern}.

(** C2.  What [Close] does on a receiver that is already closed: it
    returns nil on the branch that does not unlock, so the mutex stays
    held.  The done channel, the subscription, the topic and the sender
    are left alone, but from then on every [Close], every [UncacheCid]
    and every [Direct] for an allowed peer waits for the mutex. *)
Theorem second_Close_keeps_mutex (w : World) (env : CloseEnv) :
  closed (rcv w) = true ->
  announceMutex (rcv w) = false ->
  let w' := withRcv (set_announceMutex true) w in
  Close env w = Ret None w' /\
  w' <> w /\
  (forall env', Close env' w' = Blocked w') /\
  (forall c, UncacheCid c w' = Blocked w') /\
  (forall ctx c p addrs sched,
      allowed (rcv w) p ->
      Direct ctx c p addrs sched w'
      = Blocked (logged (EvLog LvlInfo "Handling direct announce") w')).
Proof.
  intros Hc Hm w'. subst w'. split; [|split; [|split; [|split]]].
  - unfold Close. run. open_world w. subst. reflexivity.
  - intros E. apply (f_equal (fun x => announceMutex (rcv x))) in E.
    simpl in E. congruence.
  - intros env'. unfold Close. run. reflexivity.
  - intros c. run. reflexivity.
  - intros ctx c p addrs sched Ha. apply not_rejected in Ha.
    run. open_world w. subst. rewrite Ha. reflexivity.
Qed.

(** A first [Close] of a receiver without watcher runs to its end and
    leaves the mutex free. *)
Lemma first_Close_without_watcher (w : World) (env : CloseEnv) :
  closed (rcv w) = false ->
  announceMutex (rcv w) = false ->
  done (rcv w) = false ->
  cancelWatch (rcv w) = None ->
  cancelPubsub (rcv w) = None ->
  sender (rcv w) = None ->
  exists w',
    Close env w = Ret None w' /\
    closed (rcv w') = true /\ announceMutex (rcv w') = false /\
    done (rcv w') = true.
Proof.
  intros Hc Hm Hd Hw Hp Hs. unfold Close, closeRelease, awaitWatchDone. run.
  open_world w. subst.
  destruct topicSub0; simpl; eexists; repeat split.
Qed.

End Shutdown.

(** ** Construction and the watcher *)

Section Construction.

Context {X : Extern}.

(** C9.  When [NewReceiver] made the topic itself and the construction
    of the sender fails, the sender error is returned and the cancel
    function of the topic scope is not called; when the subscription
    fails instead, that cancel function is called before the error is
    returned. *)
Theorem sender_failure_keeps_topic
    (h : Host) (topicName : string) (env : NewEnv) (opts : Options) (err : Error) :
  getOptsRes env = inr opts ->
  optTopic opts = None ->
  topicName <> "" ->
  makeTopicRes env = None ->
  let joined := [EvLog LvlInfo "Created gossip pubsub and joined topic";
                 EvMakeTopic topicName] in
  (subscribeRes env = None ->
   senderNewRes env = Some err ->
   NewReceiver (Some h) topicName env
     = (inl err, EvSenderNew :: EvSubscribe (TopicH topicName) :: joined) /\
   ~ In (EvCancel cancelPubsubFn)
        (snd (NewReceiver (Some h) topicName env))) /\
  (subscribeRes env = Some err ->
   NewReceiver (Some h) topicName env
     = (inl err, EvCancel cancelPubsubFn :: EvSubscribe (TopicH topicName) :: joined)).
Proof.
  intros Ho Ht Hn Hmk joined. apply String.eqb_neq in Hn.
  unfold NewReceiver, joinTopic. rewrite Ho, Ht, Hn, Hmk. simpl.
  split.
  - intros Hs He. rewrite Hs, He. split; [reflexivity|].
    simpl. intros [H|[H|[H|[H|[]]]]]; discriminate.
  - intros Hs. rewrite Hs. reflexivity.
Qed.

(** C8.  [NewReceiver] with a host, no topic among the options and an
    empty topic name returns a receiver whose subscription is nil and
    starts the watcher all the same; the watcher's first read, a call
    of [Next] on the nil subscription with no check before it, panics. *)
Theorem watcher_started_without_subscription
    (h : Host) (env : NewEnv) (opts : Options) :
  getOptsRes env = inr opts ->
  optTopic opts = None ->
  exists r,
    NewReceiver (Some h) "" env = (inr r, [EvGoWatch]) /\
    topic r = None /\
    topicSub r = None /\
    forall ins,
      watch ins (mkWorld r [EvGoWatch] false) = Panic (mkWorld r [EvGoWatch] false).
Proof.
  intros Ho Ht. unfold NewReceiver, joinTopic. rewrite Ho, Ht. simpl.
  eexists. split; [reflexivity|]. simpl. repeat split.
  intros ins. destruct ins; reflexivity.
Qed.

(** C1, as the code has it.  A gossip message with a non-empty OrigPeer
    whose From field decodes to the receiver's own host id is dropped:
    the turn of the watcher loop only logs at debug level, the receiver
    and its output channel are as before, and the loop goes on with the
    next read. *)
Theorem relay_from_self_dropped
    (w : World) (i : WatchIn) (from data : bytes) (m : Message) (rest : list WatchIn) :
  read i = SubMsg from data ->
  peer_IDFromBytes from = Some (hostID (rcv w)) ->
  UnmarshalCBOR data = Some m ->
  (mAddrs m = [] \/ GetAddrs (mAddrs m) <> None) ->
  mOrigPeer m <> "" ->
  let w' := logged (EvLog LvlDebug "Ignored rebuplished announce from self") w in
  watchTurn i w = Ret Continue w' /\
  (topicSub (rcv w) <> None -> watch (i :: rest) w = watch rest w').
Proof.
  intros Hr Hf Hu Ha Ho w'. apply String.eqb_neq in Ho.
  assert (E : watchTurn i w = Ret Continue w').
  { unfold watchTurn. rewrite Hr, Hf, Hu.
    assert (exists addrs, match mAddrs m with
                          | [] => Some []
                          | _ :: _ => GetAddrs (mAddrs m)
                          end = Some addrs) as [addrs ->].
    { destruct Ha as [->|Ha]; [eexists; reflexivity|].
      destruct (mAddrs m); [eexists; reflexivity|].
      destruct (GetAddrs _); [eexists; reflexivity|congruence]. }
    unfold bind at 1. unfold getR at 1. unfold bind at 1.
    rewrite Ho, String.eqb_refl. reflexivity. }
  split; [exact E|].
  intros Hs. simpl. unfold bind at 1. unfold getR at 1.
  destruct (topicSub (rcv w)); [|congruence].
  unfold bind at 1. rewrite E. reflexivity.
Qed.

End Construction.

(** * Further properties of the receiver *)

(** ** Relations kept along a computation *)

Section Keeps.

Variable R : World -> World -> Prop.
Hypothesis R_refl : forall w, R w w.
Hypothesis R_trans : forall a b c, R a b -> R b c -> R a c.

Lemma keeps_ret {A} (a : A) : keeps R (ret a).
Proof. intros w. apply R_refl. Qed.

Lemma keeps_block {A} : keeps R (@block A).
Proof. intros w. apply R_refl. Qed.

Lemma keeps_panic {A} : keeps R (@panic A).
Proof. intros w. apply R_refl. Qed.

Lemma keeps_getR : keeps R getR.
Proof. intros w. apply R_refl. Qed.

Lemma keeps_watchCtx : keeps R watchCtx.
Proof. intros w. apply R_refl. Qed.

Lemma keeps_bind {A B} (m : M A) (k : A -> M B) :
  keeps R m -> (forall a, keeps R (k a)) -> keeps R (bind m k).
Proof.
  intros Hm Hk w. unfold bind. specialize (Hm w).
  destruct (m w) as [a w'|w'|w']; simpl in *; try exact Hm.
  apply R_trans with w'; [exact Hm | apply Hk].
Qed.

Lemma keeps_modR (f : Receiver -> Receiver) :
  (forall w, R w (withRcv f w)) -> keeps R (modR f).
Proof. intros H w. apply H. Qed.

Lemma keeps_emit (e : Event) :
  (forall w, R w (logged e w)) -> keeps R (emit e).
Proof. intros H w. apply H. Qed.

End Keeps.

Ltac keeps_with tac :=
  repeat match goal with
    | |- keeps _ (ret _) => solve [apply keeps_ret; assumption]
    | |- keeps _ block => solve [apply keeps_block; assumption]
    | |- keeps _ panic => solve [apply keeps_panic; assumption]
    | |- keeps _ getR => solve [apply keeps_getR; assumption]
    | |- keeps _ watchCtx => solve [apply keeps_watchCtx; assumption]
    | |- keeps _ (modR _) => solve [apply keeps_modR; intros ?; tac]
    | |- keeps _ (emit _) => solve [apply keeps_emit; intros ?; tac]
    | |- keeps _ (bind _ _) => apply keeps_bind; [assumption | | intros ]
    | |- keeps _ (if ?b then _ else _) => destruct b
    | |- keeps _ (match ?x with _ => _ end) => destruct x
    end.

Ltac unfold_methods :=
  unfold Direct, handleAnnounce, announceCheck, cacheUpdate, republish, selectSend,
    UncacheCid, Next, Close, Close_resume, closeRelease, watchTurn,
    restartSubscription, TopicName, Lock, Unlock, closeDone, closeWatchDone,
    awaitWatchDone, callCancel, logw.

(** ** The pipeline as a whole *)

Section Pipeline.

Context {X : Extern}.

(** X1.  [handleAnnounce], [Direct], [UncacheCid] and [Next] give the
    mutex back: however the call ends (it returns, waits or panics), the
    mutex is held afterwards exactly if it was held before. *)
Theorem mutex_given_back
    (w : World) (ctx : Ctx) (amsg : Announce) (resend_ : bool) (env : Sched)
    (c : Cid) (pick_ : nat) :
  announceMutex (rcv (finalWorld (handleAnnounce ctx amsg resend_ env w)))
    = announceMutex (rcv w) /\
  announceMutex (rcv (finalWorld (Direct ctx (Cid_ amsg) (PeerID_ amsg) (Addrs_ amsg) env w)))
    = announceMutex (rcv w) /\
  announceMutex (rcv (finalWorld (UncacheCid c w))) = announceMutex (rcv w) /\
  announceMutex (rcv (finalWorld (Next ctx pick_ w))) = announceMutex (rcv w).
Proof.
  assert (G : forall w resend_ amsg,
    announceMutex (rcv (finalWorld (handleAnnounce ctx amsg resend_ env w)))
    = announceMutex (rcv w)).
  { clear. intros w resend_ amsg. run. open_world w.
    destruct allowPeer0 as [allow|];
      [destruct (allow (PeerID_ amsg)); simpl; auto|];
      (destruct announceMutex0; simpl; auto;
       destruct closed0; simpl; auto;
       destruct (stringLRU.update _ _) as [[|] c]; simpl; auto;
       destruct resend_; simpl;
       [destruct filterIPs0; simpl;
        (destruct (hasNil _); simpl; auto;
         destruct sender0; simpl; auto; destruct (sendRes env); simpl)|];
       match goal with
       | |- context [choose ?p ?l] =>
           destruct (choose p l) as [[| |]|]; simpl; auto
       end). }
  split; [apply G|]. split.
  - rewrite Direct_eq. rewrite G. reflexivity.
  - split.
    + run. open_world w. destruct announceMutex0; reflexivity.
    + rewrite Next_eq. destruct (choose _ _) as [[| |]|]; reflexivity.
Qed.

(** An announcement that passes the admission check reaches the select
    statement in the world [afterAdmission]. *)
Lemma admitted_eq
    (w : World) (ctx : Ctx) (amsg : Announce) (resend_ : bool) (env : Sched) :
  allowed (rcv w) (PeerID_ amsg) ->
  closed (rcv w) = false ->
  announceMutex (rcv w) = false ->
  fst (stringLRU.update (Cid_String (Cid_ amsg)) (announceCache (rcv w))) = false ->
  (resend_ = true -> sender (rcv w) <> None) ->
  (resend_ = true -> hasNil (Addrs_ amsg) = false) ->
  handleAnnounce ctx amsg resend_ env w
  = selectSend ctx (filtered (rcv w) amsg) (pick env)
      (afterAdmission amsg resend_ (sendRes env) w).
Proof.
  intros Ha Hc Hm U1 Hsend Hnil. apply not_rejected in Ha.
  unfold handleAnnounce, announceCheck, cacheUpdate, republish,
    afterAdmission, republished, filtered.
  unfold Lock, Unlock, logw, emit, modR, getR, bind, ret, block, panic.
  open_world w. subst. rewrite Ha. simpl.
  destruct (stringLRU.update _ announceCache0) as [seen c]. simpl in U1.
  subst seen. simpl.
  destruct resend_; simpl.
  - destruct sender0 as [sd|]; [|exfalso; apply Hsend; reflexivity].
    specialize (Hnil eq_refl).
    destruct filterIPs0; simpl; rewrite ?hasNil_FilterPublic; rewrite Hnil; simpl;
      destruct (sendRes env); reflexivity.
  - destruct filterIPs0; reflexivity.
Qed.

(** With resend, an admitted announcement that has a nil address makes
    [handleAnnounce] panic after the admission, before anything is sent. *)
Lemma admitted_panics
    (w : World) (ctx : Ctx) (amsg : Announce) (env : Sched) :
  allowed (rcv w) (PeerID_ amsg) ->
  closed (rcv w) = false ->
  announceMutex (rcv w) = false ->
  fst (stringLRU.update (Cid_String (Cid_ amsg)) (announceCache (rcv w))) = false ->
  hasNil (Addrs_ amsg) = true ->
  handleAnnounce ctx amsg true env w
  = Panic (afterAdmission amsg false None w).
Proof.
  intros Ha Hc Hm U1 Hnil. apply not_rejected in Ha.
  unfold handleAnnounce, announceCheck, cacheUpdate, republish, afterAdmission.
  unfold Lock, Unlock, logw, emit, modR, getR, bind, ret, block, panic.
  open_world w. subst. rewrite Ha. simpl.
  destruct (stringLRU.update _ announceCache0) as [seen c]. simpl in U1.
  subst seen. simpl.
  destruct filterIPs0; simpl; rewrite ?hasNil_FilterPublic; rewrite Hnil; reflexivity.
Qed.

(** X2.  The CID of an admitted announcement is put in the dedup set
    before the delivery is tried and stays there when the delivery does
    not happen (the select statement ends with [ErrClosed] or the context
    error, or waits).  A later announcement of the same CID to the open
    receiver is then dropped as seen: nothing of it gets to the output
    channel. *)
Theorem undelivered_stays_cached
    (w : World) (ctx : Ctx) (amsg : Announce) (resend_ : bool) (env : Sched) :
  allowed (rcv w) (PeerID_ amsg) ->
  closed (rcv w) = false ->
  announceMutex (rcv w) = false ->
  stringLRU.mem (Cid_String (Cid_ amsg)) (announceCache (rcv w)) = false ->
  (resend_ = true -> sender (rcv w) <> None) ->
  choose (pick env) (readySend (rcv w) ctx) <> Some caseSend ->
  let w1 := finalWorld (handleAnnounce ctx amsg resend_ env w) in
  outChan (rcv w1) = outChan (rcv w) /\
  stringLRU.mem (Cid_String (Cid_ amsg)) (announceCache (rcv w1)) = true /\
  forall (ctx2 : Ctx) (resend2 : bool) (env2 : Sched),
  exists w2,
    handleAnnounce ctx2 amsg resend2 env2 w1 = Ret None w2 /\
    outChan (rcv w2) = outChan (rcv w).
Proof.
  intros Ha Hc Hm Hs Hsend Hpick w1.
  destruct (update_fresh _ _ Hs) as [U1 U2].
  assert (E : exists tr,
             w1 = mkWorld
                    (set_announceCache
                       (snd (stringLRU.update (Cid_String (Cid_ amsg))
                               (announceCache (rcv w)))) (rcv w))
                    tr (watchCancelled w)).
  { subst w1.
    destruct (andb resend_ (hasNil (Addrs_ amsg))) eqn:B.
    - apply andb_true_iff in B. destruct B as [-> Hn].
      rewrite admitted_panics by assumption. eexists. reflexivity.
    - rewrite admitted_eq; try assumption.
      + rewrite selectSend_eq.
        change (readySend (rcv (afterAdmission amsg resend_ (sendRes env) w)) ctx)
          with (readySend (rcv w) ctx).
        destruct (choose _ _) as [[| |]|]; try (eexists; reflexivity). congruence.
      + intros ->. simpl in B. exact B. }
  destruct E as [tr E]. rewrite E. split; [reflexivity|]. split; [exact U2|].
  intros ctx2 resend2 env2.
  rewrite seen_dropped; try assumption. eexists. split; reflexivity.
Qed.

(** X3.  With resend, an admitted announcement none of whose addresses
    is nil is handed to the sender once, before the delivery and whatever
    becomes of the delivery and whatever Send answers.  The message
    carries the CID, the string of the announcing peer as OrigPeer and
    the addresses as they are delivered, that is filtered when filterIPs
    is on.  With a nil address the call panics when it encodes the
    addresses, after the admission, and nothing is handed to the
    sender. *)
Theorem republish_precedes_delivery
    (w : World) (ctx : Ctx) (amsg : Announce) (env : Sched) :
  allowed (rcv w) (PeerID_ amsg) ->
  closed (rcv w) = false ->
  announceMutex (rcv w) = false ->
  fst (stringLRU.update (Cid_String (Cid_ amsg)) (announceCache (rcv w))) = false ->
  sender (rcv w) <> None ->
  (hasNil (Addrs_ amsg) = false ->
   sent (trace (finalWorld (handleAnnounce ctx amsg true env w)))
   = mkMessage (Cid_ amsg) (SetAddrs (Addrs_ (filtered (rcv w) amsg)))
       (PeerID_String (PeerID_ amsg)) :: sent (trace w)) /\
  (hasNil (Addrs_ amsg) = true ->
   exists w',
     handleAnnounce ctx amsg true env w = Panic w' /\
     sent (trace w') = sent (trace w) /\
     outChan (rcv w') = outChan (rcv w)).
Proof.
  intros Ha Hc Hm U1 Hsend. split; intros Hnil.
  - rewrite admitted_eq by auto. rewrite selectSend_eq.
    assert (F : Cid_ (filtered (rcv w) amsg) = Cid_ amsg /\
                PeerID_ (filtered (rcv w) amsg) = PeerID_ amsg).
    { unfold filtered. destruct (filterIPs (rcv w)); split; reflexivity. }
    destruct F as [F1 F2].
    destruct (choose _ _) as [[| |]|]; simpl; unfold republished;
      rewrite F1, F2; destruct (sendRes env); reflexivity.
  - rewrite admitted_panics by assumption. eexists. repeat split.
Qed.

(** X4.  Without resend nothing is ever handed to the sender: neither by
    [handleAnnounce] with resend off nor by the watcher, whatever it
    reads and however the call ends. *)
Theorem watcher_never_republishes
    (w : World) (ctx : Ctx) (amsg : Announce) (env : Sched) (ins : list WatchIn) :
  sent (trace (finalWorld (handleAnnounce ctx amsg false env w))) = sent (trace w) /\
  sent (trace (finalWorld (watch ins w))) = sent (trace w).
Proof.
  set (R := fun a b : World => sent (trace b) = sent (trace a)).
  assert (R_refl : forall a, R a a) by (intros a; reflexivity).
  assert (R_trans : forall a b c, R a b -> R b c -> R a c)
    by (unfold R; intros a b c H1 H2; congruence).
  assert (H : forall ctx amsg env, keeps R (handleAnnounce ctx amsg false env)).
  { clear ctx amsg env w ins. intros ctx amsg env. unfold_methods.
    keeps_with ltac:(reflexivity). }
  assert (T : forall i, keeps R (watchTurn i)).
  { intros i. unfold watchTurn, restartSubscription, TopicName, Lock, Unlock, logw.
    keeps_with ltac:(reflexivity); apply H. }
  split; [apply (H ctx amsg env w)|].
  revert w. change (keeps R (watch ins)).
  induction ins as [|i rest IH]; simpl; unfold closeWatchDone;
    keeps_with ltac:(reflexivity).
  - apply T.
  - exact IH.
Qed.

End Pipeline.

(** ** Close in cases *)

Section CloseCases.

Context {X : Extern}.

Lemma Close_returns (w : World) (env : CloseEnv) :
  closed (rcv w) = false ->
  announceMutex (rcv w) = false ->
  done (rcv w) = false ->
  cancelWatch (rcv w) = None \/ watchDone (rcv w) = Some true ->
  (cancelPubsub (rcv w) <> None -> topic (rcv w) <> None) ->
  exists (res : error) (released : list Event) (wc : bool),
    Close env w
    = Ret res
        (mkWorld (set_done true (set_closed true (rcv w)))
           (released
              ++ match cancelWatch (rcv w) with
                 | Some cancel => [EvCancel cancel]
                 | None => []
                 end
              ++ match topicSub (rcv w) with
                 | Some sub => [EvSubCancel sub]
                 | None => []
                 end
              ++ trace w)%list wc) /\
    match cancelPubsub (rcv w), topic (rcv w), sender (rcv w) with
    | Some cancel, Some t, _ =>
        res = option_map (ErrWrap "failed to close pubsub topic") (topicCloseRes env) /\
        released = [EvCancel cancel; EvTopicClose t]
    | Some _, None, _ => False
    | None, _, Some _ => res = senderCloseRes env /\ released = [EvSenderClose]
    | None, _, None => res = None /\ released = []
    end.
Proof.
  intros Hc Hm Hd Hw Ho. unfold_methods.
  unfold emit, modR, getR, bind, ret, block, panic.
  open_world w. subst.
  destruct cancelPubsub0 as [cp|], topic0 as [t|], sender0 as [sd|];
    try (exfalso; apply Ho; [discriminate | reflexivity]);
    destruct topicSub0 as [sub|];
    (destruct Hw as [Hw|Hw]; subst; [|destruct cancelWatch0 as [[|]|]]);
    try destruct cp; simpl;
    do 3 eexists; (split; cycle 1); try (split; reflexivity); reflexivity.
Qed.

Lemma Close_blocks (w : World) (env : CloseEnv) (cancel : CancelFunc) :
  closed (rcv w) = false ->
  announceMutex (rcv w) = false ->
  done (rcv w) = false ->
  cancelWatch (rcv w) = Some cancel ->
  watchDone (rcv w) <> Some true ->
  exists w1,
    Close env w = Blocked w1 /\
    rcv w1 = set_done true (set_closed true (rcv w)).
Proof.
  intros Hc Hm Hd Hcw Hwd. unfold_methods.
  unfold emit, modR, getR, bind, ret, block, panic.
  open_world w. subst.
  destruct topicSub0, cancel, watchDone0 as [[|]|]; simpl;
    try congruence; eexists; split; reflexivity.
Qed.

Lemma Close_held (w : World) (env : CloseEnv) :
  announceMutex (rcv w) = true -> Close env w = Blocked w.
Proof.
  intros Hm. unfold Close, Lock, bind, getR, block. rewrite Hm. reflexivity.
Qed.

Lemma Close_again (w : World) (env : CloseEnv) :
  announceMutex (rcv w) = false ->
  closed (rcv w) = true ->
  Close env w = Ret None (withRcv (set_announceMutex true) w).
Proof.
  intros Hm Hc. unfold Close, Lock, bind, getR, modR, ret, withRcv.
  rewrite Hm. simpl. rewrite Hc. reflexivity.
Qed.

(** The receiver [Close] leaves, whichever way it ends, when the done
    channel is not closed before the receiver is. *)
Lemma Close_final (w : World) (env : CloseEnv) :
  (done (rcv w) = true -> closed (rcv w) = true) ->
  (cancelPubsub (rcv w) <> None -> topic (rcv w) <> None) ->
  (exists w', Close env w = Blocked w' \/ exists res, Close env w = Ret res w') /\
  (rcv (finalWorld (Close env w)) = rcv w \/
   rcv (finalWorld (Close env w)) = set_announceMutex true (rcv w) \/
   (closed (rcv w) = false /\
    rcv (finalWorld (Close env w)) = set_done true (set_closed true (rcv w)))).
Proof.
  intros Hd Ho.
  destruct (announceMutex (rcv w)) eqn:Hm.
  { rewrite Close_held by exact Hm. split; [eexists; left; reflexivity|]. auto. }
  destruct (closed (rcv w)) eqn:Hc.
  { rewrite Close_again by assumption.
    split; [eexists; right; eexists; reflexivity|]. auto. }
  destruct (done (rcv w)) eqn:Hdn; [specialize (Hd eq_refl); discriminate|].
  destruct (cancelWatch (rcv w)) as [cancel|] eqn:Hcw.
  - destruct (watchDone (rcv w)) as [[|]|] eqn:Hwd.
    + destruct (Close_returns w env Hc Hm Hdn (or_intror Hwd) Ho)
        as (res & rel & wc & E & _).
      rewrite E. split; [eexists; right; eexists; reflexivity|].
      right; right. split; reflexivity.
    + destruct (Close_blocks w env cancel Hc Hm Hdn Hcw) as (w1 & E & E1);
        [congruence|].
      rewrite E. split; [eexists; left; reflexivity|].
      right; right. split; [reflexivity|exact E1].
    + destruct (Close_blocks w env cancel Hc Hm Hdn Hcw) as (w1 & E & E1);
        [congruence|].
      rewrite E. split; [eexists; left; reflexivity|].
      right; right. split; [reflexivity|exact E1].
  - destruct (Close_returns w env Hc Hm Hdn (or_introl Hcw) Ho)
      as (res & rel & wc & E & _).
    rewrite E. split; [eexists; right; eexists; reflexivity|].
    right; right. split; reflexivity.
Qed.

End CloseCases.

(** ** What holds in every reachable world *)

Section Invariant.

Context {X : Extern}.

Lemma keepsInv_refl (a : World) : keepsInv a a.
Proof. intros H; exact H. Qed.

Lemma keepsInv_trans (a b c : World) :
  keepsInv a b -> keepsInv b c -> keepsInv a c.
Proof. unfold keepsInv. auto. Qed.

Ltac inv_leaf :=
  unfold keepsInv; simpl;
  let H := fresh in
  intros H; destruct H; constructor; simpl in *; auto.

Ltac inv_setup :=
  pose proof keepsInv_refl as R_refl;
  pose proof keepsInv_trans as R_trans.

Lemma NewReceiver_Inv (p2pHost : option Host) (topicName : string) (env : NewEnv)
    (r : Receiver) (tr : list Event) :
  NewReceiver p2pHost topicName env = (inr r, tr) -> Inv r.
Proof.
  unfold NewReceiver, joinTopic.
  destruct (getOptsRes env) as [e|opts]; [discriminate|].
  destruct (optTopic opts), p2pHost; simpl;
    try destruct (negb _); try destruct (makeTopicRes env); simpl;
    try destruct (subscribeRes env); try destruct (senderNewRes env); simpl;
    intros E; inversion E; subst; clear E;
    constructor; simpl; auto; try discriminate; try congruence;
    unfold outChanCap; lia.
Qed.

Lemma selectSend_Inv (ctx : Ctx) (amsg : Announce) (pick_ : nat) :
  keeps keepsInv (selectSend ctx amsg pick_).
Proof.
  intros w. rewrite selectSend_eq.
  destruct (choose _ _) as [[| |]|] eqn:E; simpl; try (intros H; exact H).
  apply choose_In in E. unfold readySend in E.
  destruct (Nat.ltb (List.length (outChan (rcv w))) outChanCap) eqn:L.
  - apply Nat.ltb_lt in L.
    intros H; destruct H; constructor; simpl in *; auto.
    rewrite length_app. unfold outChanCap in *. simpl. lia.
  - simpl in E. apply in_app_or in E. destruct E as [E|E].
    + destruct (done (rcv w)); simpl in E; intuition discriminate.
    + destruct ctx; simpl in E; intuition discriminate.
Qed.

Lemma Next_Inv (ctx : Ctx) (pick_ : nat) : keeps keepsInv (Next ctx pick_).
Proof.
  intros w. rewrite Next_eq.
  destruct (choose _ _) as [[| |]|]; simpl; try (intros H; exact H).
  intros H; destruct H; constructor; simpl in *; auto.
  destruct (outChan (rcv w)); simpl in *; lia.
Qed.

Lemma handleAnnounce_Inv (ctx : Ctx) (amsg : Announce) (resend_ : bool) (env : Sched) :
  keeps keepsInv (handleAnnounce ctx amsg resend_ env).
Proof.
  inv_setup.
  unfold handleAnnounce, announceCheck, cacheUpdate, republish, Lock, Unlock, logw.
  keeps_with inv_leaf; apply selectSend_Inv.
Qed.

Lemma callCancel_Inv (f : CancelFunc) : keeps keepsInv (callCancel f).
Proof. intros w. destruct f; intros H; exact H. Qed.

Lemma Close_resume_Inv (env : CloseEnv) : keeps keepsInv (Close_resume env).
Proof.
  inv_setup. unfold Close_resume, closeRelease, awaitWatchDone.
  keeps_with inv_leaf; apply callCancel_Inv.
Qed.

Lemma Close_Inv (env : CloseEnv) : keeps keepsInv (Close env).
Proof.
  intros w I.
  destruct (Close_final w env (inv_done _ I) (inv_owner _ I)) as [_ [E|[E|[Hc E]]]];
    rewrite E; destruct I; constructor; simpl in *; auto.
Qed.

Lemma restartSubscription_Inv (res : error) :
  keeps keepsInv (restartSubscription res).
Proof.
  intros w. unfold keepsInv. unfold_methods.
  unfold emit, modR, getR, bind, ret, block, panic.
  open_world w.
  destruct announceMutex0; simpl; auto.
  destruct topicSub0 as [s|], topic0 as [[name]|], res; simpl;
    intros H; destruct H; constructor; simpl in *; auto;
    try discriminate; try congruence.
Qed.

Lemma watch_Inv (ins : list WatchIn) : keeps keepsInv (watch ins).
Proof.
  inv_setup.
  induction ins as [|i rest IH]; simpl; unfold closeWatchDone, watchTurn, logw;
    keeps_with inv_leaf;
    try apply restartSubscription_Inv; try apply handleAnnounce_Inv; try exact IH.
Qed.

Lemma after_Inv (op : Op) (w : World) : Inv (rcv w) -> Inv (rcv (after op w)).
Proof.
  inv_setup.
  destruct op; simpl.
  - rewrite Direct_eq. intros H. apply handleAnnounce_Inv. exact H.
  - apply Next_Inv.
  - revert w. change (keeps keepsInv (UncacheCid c)).
    unfold UncacheCid, Lock, Unlock. keeps_with inv_leaf.
  - apply Close_Inv.
  - apply Close_resume_Inv.
  - apply watch_Inv.
  - apply selectSend_Inv.
Qed.

(** X5.  In every world a receiver built by [NewReceiver] can get into,
    through whatever calls of [Direct], [Next], [UncacheCid], [Close] and
    turns of the watcher: the output channel holds at most one
    announcement; resend is on only if there is a sender; the done channel
    is closed only if the receiver is marked closed; a receiver that owns
    its pubsub scope, or has a subscription, has a topic.  Hence [Close],
    [UncacheCid] and [Next] never panic there, and [Direct] panics only
    when resend is on and one of the addresses it is given is nil (the
    panic of encoding them), never for want of a sender. *)
Theorem reachable_worlds_are_sound (w : World) :
  Reachable w ->
  Inv (rcv w) /\
  (forall ctx c p addrs env w',
      Direct ctx c p addrs env w = Panic w' ->
      resend (rcv w) = true /\ hasNil addrs = true) /\
  (forall env w', Close env w <> Panic w') /\
  (forall c w', UncacheCid c w <> Panic w') /\
  (forall ctx pick_ w', Next ctx pick_ w <> Panic w').
Proof.
  intros HR.
  assert (I : Inv (rcv w)).
  { induction HR as [h n env r tr E | w op _ IH].
    - simpl. apply (NewReceiver_Inv _ _ _ _ _ E).
    - apply after_Inv. exact IH. }
  split; [exact I|]. destruct I as [I1 I2 I3 I4 I5].
  split; [|split; [|split]].
  - intros ctx c p addrs env w'. run. open_world w.
    destruct allowPeer0 as [allow|];
      [destruct (allow p); simpl; try discriminate|];
      (destruct announceMutex0; simpl; try discriminate;
       destruct closed0; simpl; try discriminate;
       destruct (stringLRU.update _ _) as [[|] c0]; simpl; try discriminate;
       destruct resend0; simpl;
       [destruct filterIPs0; simpl; rewrite ?hasNil_FilterPublic;
        (destruct (hasNil addrs); simpl; [intros _; split; reflexivity|];
         destruct sender0; simpl; [|exfalso; apply I2; reflexivity];
         destruct (sendRes env); simpl)|];
       match goal with
       | |- context [choose ?p ?l] =>
           destruct (choose p l) as [[| |]|]; simpl; discriminate
       end).
  - intros env w'.
    destruct (Close_final w env I3 I4) as [[w1 [E|[res E]]] _];
      rewrite E; discriminate.
  - intros c w'. run. open_world w. destruct announceMutex0; discriminate.
  - intros ctx pick_ w'. rewrite Next_eq.
    destruct (choose _ _) as [[| |]|]; discriminate.
Qed.

End Invariant.

(** ** Close, and the receiver after it *)

Section AfterClose.

Context {X : Extern}.

(** X6.  The first [Close] of an open receiver that has no watcher to
    wait for (or whose watcher has exited) returns: the receiver is then
    marked closed with its done channel closed and its mutex free, the
    dedup set and the output channel are untouched, and the subscription,
    if any, was cancelled.  A receiver that made its topic closes the
    topic, then cancels the pubsub scope also when closing the topic
    failed, returns that failure wrapped and leaves the sender alone; any
    other receiver leaves the topic alone and returns what closing its
    sender gives, or nil without sender. *)
Theorem first_Close_releases (w : World) (env : CloseEnv) :
  closed (rcv w) = false ->
  announceMutex (rcv w) = false ->
  done (rcv w) = false ->
  cancelWatch (rcv w) = None \/ watchDone (rcv w) = Some true ->
  (cancelPubsub (rcv w) <> None -> topic (rcv w) <> None) ->
  exists (res : error) (released : list Event) (wc : bool),
    Close env w
    = Ret res
        (mkWorld (set_done true (set_closed true (rcv w)))
           (released
              ++ match cancelWatch (rcv w) with
                 | Some cancel => [EvCancel cancel]
                 | None => []
                 end
              ++ match topicSub (rcv w) with
                 | Some sub => [EvSubCancel sub]
                 | None => []
                 end
              ++ trace w)%list wc) /\
    match cancelPubsub (rcv w), topic (rcv w), sender (rcv w) with
    | Some cancel, Some t, _ =>
        res = option_map (ErrWrap "failed to close pubsub topic") (topicCloseRes env) /\
        released = [EvCancel cancel; EvTopicClose t]
    | Some _, None, _ => False
    | None, _, Some _ => res = senderCloseRes env /\ released = [EvSenderClose]
    | None, _, None => res = None /\ released = []
    end.
Proof. apply Close_returns. Qed.

(** X7.  A closed receiver refuses an announcement of an allowed peer
    with [ErrClosed] before anything else is done with it: the dedup set,
    the output channel and the sender are left as they were, whether the
    CID is known or not. *)
Theorem closed_receiver_refuses
    (w : World) (ctx : Ctx) (amsg : Announce) (resend_ : bool) (env : Sched) :
  closed (rcv w) = true ->
  announceMutex (rcv w) = false ->
  allowed (rcv w) (PeerID_ amsg) ->
  handleAnnounce ctx amsg resend_ env w = Ret (Some ErrClosed) w /\
  Direct ctx (Cid_ amsg) (PeerID_ amsg) (Addrs_ amsg) env w
    = Ret (Some ErrClosed) (logged (EvLog LvlInfo "Handling direct announce") w).
Proof.
  intros Hc Hm Ha. apply not_rejected in Ha.
  split; run; open_world w; subst; rewrite Ha; reflexivity.
Qed.

(** X8.  What [Next] can do.  It returns an announcement only by taking
    the one at the head of the output channel; it returns [ErrClosed]
    only when the done channel is closed and the context error only when
    the context is done, in both cases leaving the world as it is; it
    waits only when the context is live, the channel empty and the done
    channel open; it never panics. *)
Theorem Next_outcomes (w : World) (ctx : Ctx) (pick_ : nat) :
  match Next ctx pick_ w with
  | Ret (a, None) w' =>
      exists rest, outChan (rcv w) = a :: rest /\ w' = withRcv (set_outChan rest) w
  | Ret (a, Some e) w' =>
      a = zeroAnnounce /\ w' = w /\
      ((e = ErrClosed /\ done (rcv w) = true) \/ ctx = Some e)
  | Blocked w' =>
      w' = w /\ ctx = None /\ outChan (rcv w) = [] /\ done (rcv w) = false
  | Panic _ => False
  end.
Proof.
  rewrite Next_eq. destruct (choose _ _) as [[|a|]|] eqn:E.
  - apply choose_In in E. unfold readyNext in E.
    destruct ctx as [e|]; [repeat split; auto|].
    exfalso. simpl in E. apply in_app_or in E. destruct E as [E|E].
    + destruct (outChan (rcv w)); simpl in E; intuition discriminate.
    + destruct (done (rcv w)); simpl in E; intuition discriminate.
  - apply choose_In in E. unfold readyNext in E.
    apply in_app_or in E. destruct E as [E|E];
      [destruct ctx; simpl in E; intuition discriminate|].
    apply in_app_or in E. destruct E as [E|E].
    + destruct (outChan (rcv w)) as [|b rest]; simpl in E; [contradiction|].
      destruct E as [E|[]]. inversion E; subst. exists rest. split; reflexivity.
    + destruct (done (rcv w)); simpl in E; intuition discriminate.
  - apply choose_In in E. unfold readyNext in E.
    repeat split. left. split; [reflexivity|].
    apply in_app_or in E. destruct E as [E|E];
      [destruct ctx; simpl in E; intuition discriminate|].
    apply in_app_or in E. destruct E as [E|E].
    + destruct (outChan (rcv w)); simpl in E; intuition discriminate.
    + destruct (done (rcv w)); [reflexivity|contradiction].
  - apply choose_none in E. unfold readyNext in E.
    destruct ctx; [discriminate|]. simpl in E.
    destruct (outChan (rcv w)); [|discriminate]. simpl in E.
    destruct (done (rcv w)); [discriminate|]. auto.
Qed.

(** X9.  The output channel holds one announcement.  While it is full,
    the done channel open and the context live, an admitted announcement
    (with resend: one that has a sender and no nil address, so that the
    republish does not panic) makes [handleAnnounce] wait, with its CID
    already in the dedup set.
    Once [Next] has taken the announcement that was in the channel, the
    send that waited goes through, and the channel holds the new
    announcement. *)
Theorem full_channel_holds_back
    (w : World) (amsg first : Announce) (resend_ : bool) (env : Sched)
    (pick1 pick2 : nat) :
  allowed (rcv w) (PeerID_ amsg) ->
  closed (rcv w) = false ->
  announceMutex (rcv w) = false ->
  fst (stringLRU.update (Cid_String (Cid_ amsg)) (announceCache (rcv w))) = false ->
  (resend_ = true -> sender (rcv w) <> None) ->
  (resend_ = true -> hasNil (Addrs_ amsg) = false) ->
  outChan (rcv w) = [first] ->
  done (rcv w) = false ->
  let w1 := afterAdmission amsg resend_ (sendRes env) w in
  let w2 := withRcv (set_outChan []) w1 in
  handleAnnounce None amsg resend_ env w = Blocked w1 /\
  Next None pick1 w1 = Ret (first, None) w2 /\
  selectSend None (filtered (rcv w) amsg) pick2 w2
    = Ret None (withRcv (set_outChan [filtered (rcv w) amsg]) w2).
Proof.
  intros Ha Hc Hm U1 Hsend Hnil Ho Hd w1 w2. subst w1 w2.
  rewrite admitted_eq by assumption. rewrite !selectSend_eq, Next_eq.
  unfold readySend, readyNext. simpl. rewrite Ho, Hd. simpl.
  rewrite choose_nil. auto.
Qed.

End AfterClose.

(** ** The watcher *)

Section Watcher.

Context {X : Extern}.

Lemma watch_cons (i : WatchIn) (rest : list WatchIn) (w : World) :
  watch (i :: rest) w
  = match topicSub (rcv w) with
    | None => Panic w
    | Some _ =>
        match watchTurn i w with
        | Ret Continue w' => watch rest w'
        | Ret Break w' => closeWatchDone w'
        | Blocked w' => Blocked w'
        | Panic w' => Panic w'
        end
    end.
Proof.
  simpl. unfold bind at 1. unfold getR at 1.
  destruct (topicSub (rcv w)); [|reflexivity].
  unfold bind at 1. destruct (watchTurn i w) as [[|] w'|w'|w']; reflexivity.
Qed.

Lemma closeWatchDone_eq (w : World) :
  watchDone (rcv w) = Some false ->
  closeWatchDone w = Ret tt (withRcv (set_watchDone (Some true)) w).
Proof.
  intros H. unfold closeWatchDone, bind, getR, modR, withRcv. rewrite H. reflexivity.
Qed.

Lemma watch_shutdown_eq (i : WatchIn) (rest : list WatchIn) (w : World) (err : Error) :
  read i = SubErr err ->
  isShutdown err = true ->
  topicSub (rcv w) <> None ->
  watchDone (rcv w) = Some false ->
  watch (i :: rest) w = Ret tt (withRcv (set_watchDone (Some true)) w).
Proof.
  intros Hr Hs Ht Hd. rewrite watch_cons.
  destruct (topicSub (rcv w)); [|congruence].
  unfold watchTurn. rewrite Hr. unfold isShutdown in Hs. rewrite Hs.
  unfold ret. apply closeWatchDone_eq. exact Hd.
Qed.

(** A message that decodes and has an origin is handed to
    [handleAnnounce] without resend. *)
Lemma watchTurn_msg_eq (i : WatchIn) (w : World) (from data : bytes)
    (src origin : PeerID) (m : Message) (addrs : Addrs) :
  read i = SubMsg from data ->
  peer_IDFromBytes from = Some src ->
  UnmarshalCBOR data = Some m ->
  decodedAddrs m = Some addrs ->
  effectiveOrigin (rcv w) src m = Some origin ->
  exists msg,
    watchTurn i w
    = match handleAnnounce (watchCtxOf w) (mkAnnounce (mCid m) origin addrs) false
              (mkSched None (wpick i)) (logged (EvLog LvlInfo msg) w) with
      | Ret (Some e) w' =>
          if errors_Is e ErrClosed || errors_Is e ctxCanceled
          then Ret Break w'
          else Ret Continue (logged (EvLog LvlError "Cannot process message") w')
      | Ret None w' => Ret Continue w'
      | Blocked w' => Blocked w'
      | Panic w' => Panic w'
      end.
Proof.
  intros Hr Hf Hu Ha Ho. unfold watchTurn. rewrite Hr, Hf, Hu.
  unfold decodedAddrs in Ha.
  destruct (mAddrs m) as [|b bs]; cbv beta iota; rewrite ?Ha;
    [inversion Ha; subst addrs|];
    unfold effectiveOrigin in Ho;
    (unfold bind at 1; unfold getR at 1; unfold bind at 1;
     destruct (String.eqb (mOrigPeer m) ""); simpl;
     [ inversion Ho; subst; exists "Handling pubsub announce"
     | destruct (String.eqb src (hostID (rcv w))); [discriminate|]; rewrite Ho;
       exists "Handling re-published pubsub announce" ];
     unfold logw, emit, ret, watchCtx, bind, logged, watchCtxOf; simpl;
     destruct (handleAnnounce _ _ _ _ _) as [[e|] w'|w'|w']; try reflexivity;
     match goal with
     | |- context [errors_Is ?x ErrClosed] =>
         destruct (errors_Is x ErrClosed || errors_Is x ctxCanceled)
     end; reflexivity).
Qed.

(** X10.  A message the watcher cannot use is skipped: when the sender id,
    the body or the addresses do not decode, or when a relay carries an
    OrigPeer that does not decode, the turn of the loop leaves the world
    as it is or adds one log entry to it, nothing else, and the loop goes
    on. *)
Theorem undecodable_message_skipped
    (w : World) (i : WatchIn) (from data : bytes) :
  read i = SubMsg from data ->
  peer_IDFromBytes from = None \/
  UnmarshalCBOR data = None \/
  (exists m, UnmarshalCBOR data = Some m /\ decodedAddrs m = None) \/
  (exists src m,
      peer_IDFromBytes from = Some src /\ UnmarshalCBOR data = Some m /\
      mOrigPeer m <> "" /\ peer_Decode (mOrigPeer m) = None) ->
  watchTurn i w = Ret Continue w \/
  exists lvl msg, watchTurn i w = Ret Continue (logged (EvLog lvl msg) w).
Proof.
  intros Hr H. unfold watchTurn. rewrite Hr.
  destruct (peer_IDFromBytes from) as [src|] eqn:Ef; [|left; reflexivity].
  right.
  destruct (UnmarshalCBOR data) as [m|] eqn:Eu; [|do 2 eexists; reflexivity].
  assert (Ea : exists o, decodedAddrs m = o /\
                match mAddrs m with
                | [] => Some []
                | _ :: _ => GetAddrs (mAddrs m)
                end = o).
  { eexists. split; reflexivity. }
  destruct Ea as (o & Ea & ->).
  destruct o as [addrs|]; [|do 2 eexists; reflexivity].
  destruct H as [H|[H|[H|H]]]; try discriminate.
  - destruct H as (m' & H1 & H2). inversion H1; subst. congruence.
  - destruct H as (src' & m' & H1 & H2 & H3 & H4).
    inversion H1; inversion H2; subst. apply String.eqb_neq in H3.
    unfold bind at 1. unfold getR at 1. unfold bind at 1. rewrite H3. simpl.
    destruct (String.eqb src' (hostID (rcv w))); [do 2 eexists; reflexivity|].
    rewrite H4. do 2 eexists; reflexivity.
Qed.

(** X11.  A message that decodes is announced under its effective origin:
    the sender for a first-hop message (also when the sender is this
    host), the decoded OrigPeer for a relay sent by another peer.  When
    the announcement is admitted and the select statement sends, the turn
    of the loop puts the CID, that origin and the decoded addresses
    (filtered with filterIPs) in the output channel and the loop goes
    on. *)
Theorem watcher_delivers_under_origin
    (w : World) (i : WatchIn) (from data : bytes)
    (src origin : PeerID) (m : Message) (addrs : Addrs) :
  read i = SubMsg from data ->
  peer_IDFromBytes from = Some src ->
  UnmarshalCBOR data = Some m ->
  decodedAddrs m = Some addrs ->
  (mOrigPeer m = "" /\ origin = src) \/
  (mOrigPeer m <> "" /\ src <> hostID (rcv w) /\
   peer_Decode (mOrigPeer m) = Some origin) ->
  allowed (rcv w) origin ->
  closed (rcv w) = false ->
  announceMutex (rcv w) = false ->
  fst (stringLRU.update (Cid_String (mCid m)) (announceCache (rcv w))) = false ->
  choose (wpick i) (readySend (rcv w) (watchCtxOf w)) = Some caseSend ->
  exists w',
    watchTurn i w = Ret Continue w' /\
    outChan (rcv w')
    = (outChan (rcv w) ++ [filtered (rcv w) (mkAnnounce (mCid m) origin addrs)])%list.
Proof.
  intros Hr Hf Hu Ha Ho Hal Hc Hm U1 Hpick.
  assert (E : effectiveOrigin (rcv w) src m = Some origin).
  { unfold effectiveOrigin. destruct Ho as [[H1 H2]|(H1 & H2 & H3)].
    - rewrite H1. subst. reflexivity.
    - apply String.eqb_neq in H1, H2. rewrite H1, H2. exact H3. }
  destruct (watchTurn_msg_eq i w from data src origin m addrs Hr Hf Hu Ha E)
    as [msg ->].
  rewrite admitted_eq; try assumption; try discriminate.
  rewrite selectSend_eq.
  change (readySend (rcv (afterAdmission _ _ _ (logged (EvLog LvlInfo msg) w))) (watchCtxOf w))
    with (readySend (rcv w) (watchCtxOf w)).
  simpl pick. rewrite Hpick. eexists. split; reflexivity.
Qed.

(** X12.  A read that fails with the context cancellation or the
    subscription-cancelled error, plain or wrapped, ends the watcher as a
    normal shutdown: it closes watchDone and returns, reads nothing more
    and leaves the rest of the receiver as it is. *)
Theorem watcher_exits_on_shutdown
    (w : World) (i : WatchIn) (rest : list WatchIn) (err : Error) :
  read i = SubErr err ->
  isShutdown err = true ->
  topicSub (rcv w) <> None ->
  watchDone (rcv w) = Some false ->
  watch (i :: rest) w = Ret tt (withRcv (set_watchDone (Some true)) w) /\
  forall msg, isShutdown (ErrWrap msg err) = true.
Proof.
  intros Hr Hs Ht Hd. split; [apply (watch_shutdown_eq i rest w err); assumption|].
  intros msg. unfold isShutdown in *. simpl.
  apply orb_true_iff in Hs. destruct Hs as [-> | ->];
    rewrite ?orb_true_r; reflexivity.
Qed.

Lemma handleAnnounce_closed_eq
    (w : World) (ctx : Ctx) (amsg : Announce) (resend_ : bool) (env : Sched) :
  closed (rcv w) = true ->
  announceMutex (rcv w) = false ->
  allowed (rcv w) (PeerID_ amsg) ->
  handleAnnounce ctx amsg resend_ env w = Ret (Some ErrClosed) w.
Proof.
  intros Hc Hm Ha. apply not_rejected in Ha.
  run; open_world w; subst; rewrite Ha; reflexivity.
Qed.

(** X13.  [Close] and the watcher.  [Close] of an open receiver with a
    running watcher marks the receiver closed, cancels the subscription,
    closes the done channel, cancels the watcher's context and only then
    waits for watchDone, with the mutex free.  The watcher, woken by the
    cancellation, closes watchDone and returns; [Close] then goes on to
    its end and returns. *)
Theorem Close_waits_for_watcher
    (w : World) (env : CloseEnv) (sub : Subscription)
    (i : WatchIn) (rest : list WatchIn) (err : Error) :
  closed (rcv w) = false ->
  announceMutex (rcv w) = false ->
  done (rcv w) = false ->
  cancelWatch (rcv w) = Some cancelWatchFn ->
  watchDone (rcv w) = Some false ->
  topicSub (rcv w) = Some sub ->
  (cancelPubsub (rcv w) <> None -> topic (rcv w) <> None) ->
  read i = SubErr err ->
  isShutdown err = true ->
  let w1 := mkWorld (set_done true (set_closed true (rcv w)))
              (EvCancel cancelWatchFn :: EvSubCancel sub :: trace w) true in
  let w2 := withRcv (set_watchDone (Some true)) w1 in
  Close env w = Blocked w1 /\
  watch (i :: rest) w1 = Ret tt w2 /\
  exists res w3, Close_resume env w2 = Ret res w3 /\ rcv w3 = rcv w2.
Proof.
  intros Hc Hm Hd Hcw Hwd Hs Ho Hr Hsh w1 w2. subst w1 w2.
  split; [|split].
  - unfold_methods. unfold emit, modR, getR, bind, ret, block, panic.
    open_world w. subst. reflexivity.
  - apply (watch_shutdown_eq i rest _ err); try assumption.
    simpl. rewrite Hs. discriminate.
  - unfold_methods. unfold emit, modR, getR, bind, ret, block, panic, withRcv.
    open_world w. subst.
    destruct cancelPubsub0 as [[|]|], topic0 as [t|], sender0 as [sd|]; simpl;
      try (exfalso; apply Ho; [discriminate | reflexivity]);
      do 2 eexists; split; reflexivity.
Qed.

(** X14.  Once the receiver is marked closed, a watcher that still reads
    a message from an allowed origin does not deliver it: the admission
    answers [ErrClosed], the watcher leaves its loop, closes watchDone
    and returns, with the dedup set and the output channel untouched. *)
Theorem watcher_exits_when_closed
    (w : World) (i : WatchIn) (rest : list WatchIn) (from data : bytes)
    (src origin : PeerID) (m : Message) (addrs : Addrs) :
  closed (rcv w) = true ->
  announceMutex (rcv w) = false ->
  topicSub (rcv w) <> None ->
  watchDone (rcv w) = Some false ->
  read i = SubMsg from data ->
  peer_IDFromBytes from = Some src ->
  UnmarshalCBOR data = Some m ->
  decodedAddrs m = Some addrs ->
  effectiveOrigin (rcv w) src m = Some origin ->
  allowed (rcv w) origin ->
  exists tr,
    watch (i :: rest) w
    = Ret tt (mkWorld (set_watchDone (Some true) (rcv w)) tr (watchCancelled w)).
Proof.
  intros Hc Hm Ht Hd Hr Hf Hu Ha Ho Hal. rewrite watch_cons.
  destruct (topicSub (rcv w)); [|congruence].
  destruct (watchTurn_msg_eq i w from data src origin m addrs Hr Hf Hu Ha Ho)
    as [msg ->].
  rewrite handleAnnounce_closed_eq; try assumption.
  simpl. rewrite closeWatchDone_eq by exact Hd.
  eexists. reflexivity.
Qed.

(** X15.  A read that fails with any other error makes the watcher
    restart the subscription under the mutex: the old subscription is
    cancelled, a new one is opened on the same topic and put in its
    place, the mutex is given back and the loop goes on with the next
    read; nothing else in the receiver changes. *)
Theorem failed_read_restarts_subscription
    (w : World) (i : WatchIn) (rest : list WatchIn) (err : Error)
    (sub : Subscription) (t : Topic) :
  read i = SubErr err ->
  isShutdown err = false ->
  announceMutex (rcv w) = false ->
  topicSub (rcv w) = Some sub ->
  topic (rcv w) = Some t ->
  resubRes i = None ->
  let w' := mkWorld (set_topicSub (Some (nextGeneration sub)) (rcv w))
              (EvSubscribe t :: EvSubCancel sub
                 :: EvLog LvlError "Error reading from pubsub" :: trace w)
              (watchCancelled w) in
  watchTurn i w = Ret Continue w' /\
  watch (i :: rest) w = watch rest w' /\
  nextGeneration sub <> sub.
Proof.
  intros Hr Hs Hm Hsub Ht Hres w'. subst w'.
  assert (E : watchTurn i w
              = Ret Continue
                  (mkWorld (set_topicSub (Some (nextGeneration sub)) (rcv w))
                     (EvSubscribe t :: EvSubCancel sub
                        :: EvLog LvlError "Error reading from pubsub" :: trace w)
                     (watchCancelled w))).
  { unfold watchTurn. rewrite Hr. unfold isShutdown in Hs. rewrite Hs.
    unfold_methods. unfold emit, modR, getR, bind, ret, block, panic.
    rewrite Hres. open_world w. subst. reflexivity. }
  split; [exact E|]. split.
  - rewrite watch_cons, Hsub, E. reflexivity.
  - destruct sub as [g]. simpl. intros H. inversion H. lia.
Qed.

(** X16.  When the restart fails, the watcher gives up: the receiver is
    left without subscription, with the mutex free, and the watcher
    closes watchDone and returns.  A [Close] after that does not wait and
    cancels no subscription: it returns with the receiver closed. *)
Theorem failed_restart_ends_watcher
    (w : World) (i : WatchIn) (rest : list WatchIn) (err e : Error)
    (sub : Subscription) (t : Topic) (env : CloseEnv) :
  read i = SubErr err ->
  isShutdown err = false ->
  announceMutex (rcv w) = false ->
  topicSub (rcv w) = Some sub ->
  topic (rcv w) = Some t ->
  resubRes i = Some e ->
  watchDone (rcv w) = Some false ->
  closed (rcv w) = false ->
  done (rcv w) = false ->
  let w' := mkWorld (set_watchDone (Some true) (set_topicSub None (rcv w)))
              (EvLog LvlError "Cannot restart subscription"
                 :: EvSubscribe t :: EvSubCancel sub
                 :: EvLog LvlError "Error reading from pubsub" :: trace w)
              (watchCancelled w) in
  watch (i :: rest) w = Ret tt w' /\
  exists res w3,
    Close env w' = Ret res w3 /\
    rcv w3 = set_done true (set_closed true (rcv w')) /\
    forall s, In (EvSubCancel s) (trace w3) -> In (EvSubCancel s) (trace w').
Proof.
  intros Hr Hs Hm Hsub Ht Hres Hwd Hc Hd w'. subst w'. split.
  - rewrite watch_cons, Hsub. unfold watchTurn. rewrite Hr.
    unfold isShutdown in Hs. rewrite Hs.
    unfold_methods. unfold emit, modR, getR, bind, ret, block, panic.
    rewrite Hres. open_world w. subst. destruct t. reflexivity.
  - set (w' := mkWorld (set_watchDone (Some true) (set_topicSub None (rcv w)))
              (EvLog LvlError "Cannot restart subscription"
                 :: EvSubscribe t :: EvSubCancel sub
                 :: EvLog LvlError "Error reading from pubsub" :: trace w)
              (watchCancelled w)).
    destruct (Close_returns w' env) as (res & rel & wc & E & Hrel);
      try assumption; try (right; reflexivity).
    { simpl. rewrite Ht. discriminate. }
    exists res. eexists. split; [exact E|]. split; [reflexivity|].
    simpl. intros s H.
    assert (Hr2 : forall s0, ~ In (EvSubCancel s0) rel).
    { simpl in Hrel. rewrite Ht in Hrel.
      destruct (cancelPubsub (rcv w)), (sender (rcv w));
        destruct Hrel as [_ ->]; simpl; intros q F; intuition discriminate. }
    apply in_app_or in H. destruct H as [H|H]; [exfalso; apply (Hr2 s H)|].
    apply in_app_or in H. destruct H as [H|H]; [|exact H].
    destruct (cancelWatch (rcv w)); simpl in H; intuition discriminate.
Qed.

End Watcher.

(** ** Construction *)

Section NewReceiverFacts.

Context {X : Extern}.

(** X17.  What a successful [NewReceiver] returns: an open receiver with
    the mutex free, the done channel open, an empty output channel and an
    empty dedup set of capacity 64, with the allow predicate and the
    filterIPs flag of the options.  Without topic there is no sender, no
    subscription and resend is off whatever the options say; with a topic
    there are a sender and a subscription and resend is as in the
    options.  The receiver holds the cancel function of the pubsub scope
    exactly when it made the topic itself (no topic in the options, a
    host and a non-empty name), and otherwise has the topic of the
    options.  With a host it has the host's id and a watcher was started;
    without, no watcher was. *)
Theorem NewReceiver_gives
    (p2pHost : option Host) (topicName : string) (env : NewEnv)
    (r : Receiver) (tr : list Event) :
  NewReceiver p2pHost topicName env = (inr r, tr) ->
  exists opts,
    getOptsRes env = inr opts /\
    allowPeer r = optAllowPeer opts /\ filterIPs r = optFilterIPs opts /\
    closed r = false /\ announceMutex r = false /\ done r = false /\
    outChan r = [] /\
    announceCache r = stringLRU.newStringLRU announceCacheSize /\
    (topic r = None ->
     resend r = false /\ sender r = None /\ topicSub r = None /\
     cancelPubsub r = None) /\
    (topic r <> None ->
     resend r = optResend opts /\ sender r <> None /\ topicSub r <> None) /\
    (cancelPubsub r <> None ->
     optTopic opts = None /\ p2pHost <> None /\ topicName <> "" /\
     topic r = Some (TopicH topicName) /\ In (EvMakeTopic topicName) tr) /\
    (cancelPubsub r = None ->
     topic r = optTopic opts /\ forall n, ~ In (EvMakeTopic n) tr) /\
    match p2pHost with
    | Some h =>
        hostID r = hostPeerID h /\ cancelWatch r = Some cancelWatchFn /\
        watchDone r = Some false /\ In EvGoWatch tr
    | None =>
        hostID r = "" /\ cancelWatch r = None /\ watchDone r = None /\
        ~ In EvGoWatch tr
    end.
Proof.
  unfold NewReceiver, joinTopic.
  destruct (getOptsRes env) as [e|opts]; [discriminate|].
  intros E. exists opts. split; [reflexivity|]. revert E.
  destruct (optTopic opts) as [t|] eqn:Et, p2pHost as [h|]; simpl;
    try (destruct (String.eqb topicName "") eqn:En; simpl);
    try destruct (makeTopicRes env); simpl;
    try destruct (subscribeRes env); try destruct (senderNewRes env); simpl;
    intros E; inversion E; subst; clear E; simpl;
    try (apply String.eqb_neq in En);
    repeat split; intros; simpl in *;
    try discriminate; try congruence; auto;
    try (intuition discriminate).
Qed.

(** X18.  A [NewReceiver] that fails has started no watcher and returns
    the error of the first call that failed, having made no call after
    it: the error of [getOpts], with no call made; or the error of
    [MakeTopic], when it had to make the topic; or, with the topic of the
    options or the one it made, the error of [Subscribe] (after which it
    cancels the pubsub scope if it made the topic) or, the subscription
    open, the error of [p2psender.New]. *)
Theorem NewReceiver_failure
    (p2pHost : option Host) (topicName : string) (env : NewEnv)
    (err : Error) (tr : list Event) :
  NewReceiver p2pHost topicName env = (inl err, tr) ->
  ~ In EvGoWatch tr /\
  ((getOptsRes env = inl err /\ tr = []) \/
   exists opts,
     getOptsRes env = inr opts /\
     ((optTopic opts = None /\ p2pHost <> None /\ topicName <> "" /\
       makeTopicRes env = Some err /\ tr = [EvMakeTopic topicName]) \/
      exists (t : Topic) (made : bool),
        (if made
         then optTopic opts = None /\ p2pHost <> None /\ topicName <> "" /\
              makeTopicRes env = None /\ t = TopicH topicName
         else optTopic opts = Some t) /\
        let joined :=
          if made
          then [EvLog LvlInfo "Created gossip pubsub and joined topic";
                EvMakeTopic topicName]
          else [] in
        ((subscribeRes env = Some err /\
          tr = ((if made then [EvCancel cancelPubsubFn] else [])
                  ++ EvSubscribe t :: joined)%list) \/
         (subscribeRes env = None /\ senderNewRes env = Some err /\
          tr = EvSenderNew :: EvSubscribe t :: joined)))).
Proof.
  unfold NewReceiver, joinTopic.
  destruct (getOptsRes env) as [e|opts];
    [intros E; inversion E; subst; split; [intros []|left; auto]|].
  destruct (optTopic opts) as [t|] eqn:Et.
  - destruct p2pHost; simpl;
      (destruct (subscribeRes env) eqn:Es;
       [|destruct (senderNewRes env) eqn:En]; simpl;
       intros E; inversion E; subst; clear E;
       (split; [simpl; intuition discriminate|]);
       right; exists opts; (split; [reflexivity|]);
       right; exists t, false; (split; [exact Et|]); simpl; auto).
  - destruct p2pHost as [h|]; simpl;
      [|intros E; inversion E].
    destruct (String.eqb topicName "") eqn:En; simpl;
      [intros E; inversion E|].
    apply String.eqb_neq in En.
    destruct (makeTopicRes env) as [e|] eqn:Em; simpl.
    + intros E; inversion E; subst.
      split; [simpl; intuition discriminate|].
      right. exists opts. split; [reflexivity|]. left.
      repeat split; auto. discriminate.
    + destruct (subscribeRes env) eqn:Es;
        [|destruct (senderNewRes env) eqn:Esn]; simpl;
        intros E; inversion E; subst; clear E;
        (split; [simpl; intuition discriminate|]);
        right; exists opts; (split; [reflexivity|]);
        right; exists (TopicH topicName), true;
        (split; [repeat split; auto; discriminate|]); simpl; auto.
Qed.

(** X19.  [TopicName] on a new receiver: it returns the name the topic
    was joined under when the receiver made the topic, the name of the
    topic of the options when one was given, and it panics when the
    receiver was built without topic (no topic in the options and no host
    or an empty name).  It never changes the world. *)
Theorem TopicName_of_new
    (p2pHost : option Host) (topicName : string) (env : NewEnv)
    (opts : Options) (r : Receiver) (tr : list Event) :
  NewReceiver p2pHost topicName env = (inr r, tr) ->
  getOptsRes env = inr opts ->
  let w := mkWorld r tr false in
  match optTopic opts with
  | Some (TopicH name) => TopicName w = Ret name w
  | None =>
      if match p2pHost with Some _ => negb (String.eqb topicName "") | None => false end
      then TopicName w = Ret topicName w
      else TopicName w = Panic w
  end.
Proof.
  unfold NewReceiver, joinTopic. intros E Ho. rewrite Ho in E. revert E.
  destruct (optTopic opts) as [[name]|], p2pHost as [h|]; simpl;
    try destruct (negb _); simpl;
    try destruct (makeTopicRes env); simpl;
    try destruct (subscribeRes env); try destruct (senderNewRes env); simpl;
    intros E; inversion E; subst; clear E; reflexivity.
Qed.

End NewReceiverFacts.


(** * Runs on concrete inputs *)

Import TestCodec.

(** ** The fixtures are what the constructor builds *)

Example NewReceiver_directOnly :
  NewReceiver None "" (allOk options0) = (inr (directOnly options0), []).
Proof. reflexivity. Qed.

Example NewReceiver_onTopic :
  let opts := mkOptions (Some topicT) None true true in
  NewReceiver (Some hostH) "" (allOk opts)
  = (inr (onTopic hostH topicT opts), [EvGoWatch; EvSenderNew; EvSubscribe topicT]).
Proof. reflexivity. Qed.

(** Without a topic the resend option is switched off. *)
Example NewReceiver_forces_resend_off :
  option_map resend
    (option_map rcv (worldOf (NewReceiver None "" (allOk (mkOptions None None false true)))))
  = Some false.
Proof. reflexivity. Qed.

Example Close_wDirect : Close closeOk wDirect = Ret None wClosed.
Proof. reflexivity. Qed.

(** ** The address filter on the table of its test *)

Example FilterPublic_test :
  mautil.FilterPublic testAddrs
  = [ Some [IP4 (mautil.ip4 11 0 0 0); TCP 80%Z];
      Some [IP6 (mautil.ip6_hi 0xfe00); TCP 8080%Z];
      Some [DNS "example.net"; TCP 1234%Z] ].
Proof. vm_compute. reflexivity. Qed.

Example FilterPublic_nil : mautil.FilterPublic [] = [].
Proof. reflexivity. Qed.

Example FilterPublic_nil_entry : mautil.FilterPublic [None] = [None].
Proof. reflexivity. Qed.

(** ** The scenarios of the specification *)

(** Echo suppression: a relay sent by the host itself is dropped and the
    watcher waits for the next message. *)
Example scenario_echo :
  watch [relayByH] wTopic
  = Blocked (logged (EvLog LvlDebug "Ignored rebuplished announce from self") wTopic).
Proof. vm_compute. reflexivity. Qed.

(** Relay path: the origin of a relay is its OrigPeer. *)
Example scenario_relay :
  (watch [mkWatchIn (SubMsg (list_byte_of_string "R") (wire "C" "S")) None 0;
          mkWatchIn (SubErr ErrSubscriptionCancelled) None 0] ;;
   Next None 0) wTopic
  = Ret (mkAnnounce "C" "S" [], None)
      (mkWorld
         (set_outChan []
            (set_watchDone (Some true)
               (set_announceCache (stringLRU.mk announceCacheSize ["C"]) (rcv wTopic))))
         [EvLog LvlInfo "Handling re-published pubsub announce"] false).
Proof. vm_compute. reflexivity. Qed.

(** Address filtering. *)
Example scenario_filter :
  exists w,
    (Direct None "D" "P1" [Some addrLoop; Some addr8888] sendOk ;; Next None 0) wTopic
    = Ret (mkAnnounce "D" "P1" [Some addr8888], None) w.
Proof. eexists. vm_compute. reflexivity. Qed.

(** A nil entry passes the filter. *)
Example filter_keeps_nil_entry :
  exists w,
    handleAnnounce None annMixed false sendOk wTopic = Ret None w /\
    outChan (rcv w) = [mkAnnounce "D" "P1" [None; Some addr8888]].
Proof. eexists. vm_compute. split; reflexivity. Qed.

(** Peer-allow reject: the rejected announcement leaves the dedup set as
    it is, and the same CID from an allowed peer is delivered. *)
Example scenario_reject :
  exists w,
    (e1 <- Direct None "A" "P" [] sendOk ;;
     e2 <- Direct None "A" "Q" [] sendOk ;;
     n <- Next None 0 ;;
     ret (e1, e2, n))
      (world (directOnly (mkOptions None (Some denyP) false false)))
    = Ret (None, None, (mkAnnounce "A" "Q" [], None)) w.
Proof. eexists. vm_compute. reflexivity. Qed.

(** Close with a watcher: [Close] waits for watchDone, the watcher reads
    the cancellation and exits, [Close] goes on and returns nil with the
    mutex free. *)
Example scenario_close_with_watcher :
  exists w1 w2 w3,
    Close closeOk wTopic = Blocked w1 /\
    watch [mkWatchIn (SubErr ctxCanceled) None 0] w1 = Ret tt w2 /\
    Close_resume closeOk w2 = Ret None w3 /\
    closed (rcv w3) = true /\ announceMutex (rcv w3) = false /\
    done (rcv w3) = true /\ watchDone (rcv w3) = Some true /\
    trace w3 = [EvSenderClose; EvCancel cancelWatchFn; EvSubCancel (SubH 0)].
Proof. do 3 eexists. vm_compute. repeat split. Qed.

(** UncacheCid: delivered, dropped, uncached, delivered again. *)
Example scenario_uncache :
  exists w,
    (e1 <- Direct None "D" "P1" [] sendOk ;;
     n1 <- Next None 0 ;;
     e2 <- Direct None "D" "P1" [] sendOk ;;
     UncacheCid "D" ;;
     e3 <- Direct None "D" "P1" [] sendOk ;;
     n3 <- Next None 0 ;;
     ret (e1, fst n1, e2, e3, fst n3)) wDirect
    = Ret (None, mkAnnounce "D" "P1" [], None, None, mkAnnounce "D" "P1" []) w /\
    trace w = [EvLog LvlInfo "Handling direct announce";
               EvLog LvlInfo "Ignored announcement";
               EvLog LvlInfo "Handling direct announce";
               EvLog LvlInfo "Handling direct announce"].
Proof. eexists. vm_compute. split; reflexivity. Qed.

(** With resend, a nil address makes [Direct] panic when the addresses
    are encoded for the republish: nothing is sent or delivered. *)
Example nil_address_panics_on_republish :
  exists w,
    Direct None "D" "P1" [None; Some addr8888] sendOk wTopic = Panic w /\
    sent (trace w) = [] /\ outChan (rcv w) = [].
Proof. eexists. vm_compute. repeat split. Qed.

(** A closed receiver answers a seen CID with [ErrClosed]: the closed
    check comes before the dedup step. *)
Example closed_receiver_results :
  handleAnnounce None annA false sendOk
    (withRcv (set_announceCache (stringLRU.mk announceCacheSize ["A"])) wClosed)
  = Ret (Some ErrClosed)
      (withRcv (set_announceCache (stringLRU.mk announceCacheSize ["A"])) wClosed).
Proof. reflexivity. Qed.

(** ** The theorems at concrete inputs *)

(** The rejected peer P on a closed receiver whose mutex is held. *)
Lemma rejected_peer_witness :
  closed (rcv wDenyClosed) = true /\
  announceMutex (rcv wDenyClosed) = true /\
  handleAnnounce None annP true sendOk wDenyClosed
    = Ret None (logged (EvLog LvlInfo "Ignored announcement") wDenyClosed) /\
  Direct None "A" "P" [Some addr1234] sendOk wDenyClosed
    = Ret None (logged (EvLog LvlInfo "Ignored announcement")
                  (logged (EvLog LvlInfo "Handling direct announce") wDenyClosed)).
Proof.
  split; [reflexivity|]. split; [reflexivity|].
  apply (rejected_peer_returns_nil (X:=codec) wDenyClosed None annP true sendOk denyP
           [Some addr1234]); reflexivity.
Defined.

(** The CID A announced to a receiver that has it, and announced twice to
    a new receiver. *)
Lemma duplicate_cid_witness :
  handleAnnounce None annA false sendOk wSeenA
    = Ret None (logged (EvLog LvlInfo "Ignored announcement") wSeenA) /\
  resend (rcv wTopic) = true /\
  exists w,
    (e1 <- Direct None "A" "P1" [Some addr1234] sendOk ;;
     e2 <- Direct None "A" "P1" [Some addr1234] sendOk ;;
     n1 <- Next None 0 ;;
     n2 <- Next (Some ctxDeadlineExceeded) 0 ;;
     ret (e1, e2, n1, n2)) wTopic
    = Ret (None, None, (annA, None), (zeroAnnounce, Some ctxDeadlineExceeded)) w.
Proof.
  split; [|split; [reflexivity|]].
  - apply (proj1 (duplicate_cid_dropped (X:=codec) wSeenA None annA false sendOk
                    I eq_refl eq_refl) eq_refl).
  - apply (proj2 (duplicate_cid_dropped (X:=codec) wTopic None annA false sendOk
                    I eq_refl eq_refl) eq_refl);
      [discriminate | reflexivity | reflexivity | reflexivity].
Defined.

Lemma uncache_readmits_witness :
  (exists w1,
     handleAnnounce None annA true sendOk wTopicSeenA = Ret None w1 /\
     outChan (rcv w1) = []) /\
  (exists w2,
     (UncacheCid "A" ;; handleAnnounce None annA true sendOk) wTopicSeenA = Ret None w2 /\
     outChan (rcv w2) = [annA]).
Proof.
  apply (uncache_readmits (X:=codec) wTopicSeenA None annA true sendOk
           I eq_refl eq_refl eq_refl);
    [discriminate | reflexivity | reflexivity].
Defined.

(** A republish that fails on the receiver with resend: the announcement
    is in the output channel and the failure in the log. *)
Lemma republish_failure_witness :
  handleAnnounce None annA true sendFails wTopic
  = Ret None
      (mkWorld
         (set_outChan [annA]
            (set_announceCache (stringLRU.mk announceCacheSize ["A"]) (rcv wTopic)))
         [EvLog LvlError "Cannot republish announce message";
          EvSend (mkMessage "A" [] "P1")]
         false).
Proof.
  rewrite (republish_failure_not_fatal (X:=codec) wTopic None annA sendFails
             (ErrOther "publish failed") I eq_refl eq_refl eq_refl);
    [reflexivity | discriminate | reflexivity | reflexivity].
Defined.

(** An announcement with a loopback address only is delivered with no
    address. *)
Lemma filterIPs_witness :
  filterIPs (rcv wTopic) = true /\
  exists w,
    handleAnnounce None annLoop true sendOk wTopic = Ret None w /\
    outChan (rcv w) = [mkAnnounce "E" "P1" []].
Proof.
  split; [reflexivity|].
  destruct (filterIPs_delivers_public_only (X:=codec) wTopic None annLoop true sendOk eq_refl)
    as (_ & _ & _ & H).
  apply H; [exact I | reflexivity | reflexivity | reflexivity | discriminate
           | reflexivity | reflexivity].
Defined.

(** The second [Close] of a closed receiver, and what comes after it. *)
Lemma second_Close_witness :
  closed (rcv wClosed) = true /\
  Close closeOk wClosed = Ret None (withRcv (set_announceMutex true) wClosed) /\
  Close closeOk (withRcv (set_announceMutex true) wClosed)
    = Blocked (withRcv (set_announceMutex true) wClosed) /\
  UncacheCid "A" (withRcv (set_announceMutex true) wClosed)
    = Blocked (withRcv (set_announceMutex true) wClosed).
Proof.
  split; [reflexivity|].
  destruct (second_Close_keeps_mutex (X:=codec) wClosed closeOk eq_refl eq_refl)
    as (H1 & _ & H2 & H3 & _).
  split; [exact H1|]. split; [apply H2 | apply H3].
Defined.

Lemma sender_failure_witness :
  let env := mkNewEnv (inr options0) None None (Some (ErrOther "no sender")) in
  NewReceiver (Some hostH) "topic" env
  = (inl (ErrOther "no sender"),
     [EvSenderNew; EvSubscribe (TopicH "topic");
      EvLog LvlInfo "Created gossip pubsub and joined topic"; EvMakeTopic "topic"]).
Proof.
  intros env.
  apply (proj1 (sender_failure_keeps_topic hostH "topic" env options0
                  (ErrOther "no sender") eq_refl eq_refl
                  ltac:(discriminate) eq_refl));
    reflexivity.
Defined.

Lemma watcher_without_subscription_witness :
  exists r,
    NewReceiver (Some hostH) "" (allOk options0) = (inr r, [EvGoWatch]) /\
    topicSub r = None /\
    watch [relayByR] (mkWorld r [EvGoWatch] false) = Panic (mkWorld r [EvGoWatch] false).
Proof.
  destruct (watcher_started_without_subscription (X:=codec) hostH (allOk options0) options0
              eq_refl eq_refl) as (r & H1 & _ & H2 & H3).
  exists r. split; [exact H1|]. split; [exact H2 | apply H3].
Defined.

Lemma relay_from_self_witness :
  watchTurn relayByH wTopic
  = Ret Continue (logged (EvLog LvlDebug "Ignored rebuplished announce from self") wTopic).
Proof.
  apply (relay_from_self_dropped (X:=codec) wTopic relayByH (list_byte_of_string "H")
           (wire "C" "H") (mkMessage "C" [] "H") []);
    [reflexivity | reflexivity | reflexivity | left; reflexivity | discriminate].
Defined.

(** C1, as it is stated, fails.  The receiver of host H reads a relay that
    the peer R sent and that names H as the original peer: the OrigPeer
    field is the string of the receiver's own host id, yet the message is
    not dropped.  It is admitted with H as its origin, and [Next] returns
    it. *)
Lemma relay_naming_self_is_delivered :
  let a := mkAnnounce "C" "H" [] in
  hostID (rcv wTopic) = "H" /\
  read relayByR = SubMsg (list_byte_of_string "R") (wire "C" "H") /\
  UnmarshalCBOR (wire "C" "H") = Some (mkMessage "C" [] (PeerID_String (hostID (rcv wTopic)))) /\
  exists w1 w2,
    watchTurn relayByR wTopic = Ret Continue w1 /\
    outChan (rcv w1) = [a] /\
    PeerID_ a = hostID (rcv wTopic) /\
    Next None 0 w1 = Ret (a, None) w2.
Proof.
  intros a. repeat split. do 2 eexists. vm_compute. repeat split.
Qed.

(** ** The further properties at concrete inputs *)

(** A delivery given up on a cancelled context, then the same CID again. *)
Lemma undelivered_witness :
  let env := mkSched None 1 in
  let w1 := finalWorld (handleAnnounce (Some ctxCanceled) annA false env wDirect) in
  choose (pick env) (readySend (rcv wDirect) (Some ctxCanceled)) = Some caseCtx /\
  outChan (rcv w1) = [] /\
  exists w2, handleAnnounce None annA false sendOk w1 = Ret None w2 /\ outChan (rcv w2) = [].
Proof.
  intros env w1. split; [reflexivity|].
  destruct (undelivered_stays_cached (X:=codec) wDirect (Some ctxCanceled) annA false env
              I eq_refl eq_refl eq_refl ltac:(discriminate) ltac:(discriminate))
    as (H1 & _ & H3).
  split; [exact H1 | apply H3].
Defined.

Lemma republish_order_witness :
  sent (trace (finalWorld (handleAnnounce None annLoop true sendFails wTopic)))
  = [mkMessage "E" [] "P1"] /\
  exists w',
    handleAnnounce None annMixed true sendOk wTopic = Panic w' /\
    sent (trace w') = [] /\ outChan (rcv w') = [].
Proof.
  split.
  - apply (proj1 (republish_precedes_delivery (X:=codec) wTopic None annLoop sendFails
                    I eq_refl eq_refl eq_refl ltac:(discriminate)) eq_refl).
  - apply (proj2 (republish_precedes_delivery (X:=codec) wTopic None annMixed sendOk
                    I eq_refl eq_refl eq_refl ltac:(discriminate)) eq_refl).
Defined.

(** The world after a [Direct] and two [Close] calls on a new receiver. *)
Lemma reachable_witness :
  let w := after (OpClose closeOk)
             (after (OpClose closeOk)
                (after (OpDirect None "A" "P1" [] sendOk) wDirect)) in
  Inv (rcv w) /\ forall c w', UncacheCid c w <> Panic w'.
Proof.
  intros w.
  destruct (reachable_worlds_are_sound (X:=codec) w) as (H1 & _ & _ & H4 & _).
  - unfold w. do 3 apply reach_step.
    apply (reach_new None "" (allOk options0)). reflexivity.
  - split; [exact H1 | exact H4].
Defined.

Lemma first_Close_witness :
  exists res w', Close closeOk wDirect = Ret res w' /\ closed (rcv w') = true.
Proof.
  destruct (first_Close_releases wDirect closeOk eq_refl eq_refl eq_refl
              (or_introl eq_refl) ltac:(intros H; exfalso; apply H; reflexivity))
    as (res & rel & wc & E & _).
  rewrite E. do 2 eexists. split; reflexivity.
Defined.

Lemma closed_refuses_witness :
  handleAnnounce None annA false sendOk wClosed = Ret (Some ErrClosed) wClosed.
Proof.
  apply (proj1 (closed_receiver_refuses (X:=codec) wClosed None annA false sendOk
                  eq_refl eq_refl I)).
Defined.

Lemma full_channel_witness :
  exists w1 w2 w3,
    handleAnnounce None annB false sendOk wFull = Blocked w1 /\
    Next None 0 w1 = Ret (annA, None) w2 /\
    selectSend None annB 0 w2 = Ret None w3 /\
    outChan (rcv w3) = [annB].
Proof.
  destruct (full_channel_holds_back (X:=codec) wFull annB annA false sendOk 0 0
              I eq_refl eq_refl eq_refl ltac:(discriminate) ltac:(discriminate)
              eq_refl eq_refl)
    as (H1 & H2 & H3).
  do 3 eexists. split; [exact H1|]. split; [exact H2|]. split; [exact H3|reflexivity].
Defined.

Lemma undecodable_witness :
  UnmarshalCBOR [] = None /\
  (watchTurn readGarbage wTopic = Ret Continue wTopic \/
   exists lvl msg,
     watchTurn readGarbage wTopic = Ret Continue (logged (EvLog lvl msg) wTopic)).
Proof.
  split; [reflexivity|].
  apply (undecodable_message_skipped (X:=codec) wTopic readGarbage
           (list_byte_of_string "R") [] eq_refl (or_intror (or_introl eq_refl))).
Defined.

Lemma origin_witness :
  exists w',
    watchTurn relayByRForS wTopic = Ret Continue w' /\
    outChan (rcv w') = [mkAnnounce "C" "S" []].
Proof.
  apply (watcher_delivers_under_origin (X:=codec) wTopic relayByRForS
           (list_byte_of_string "R") (wire "C" "S") "R" "S"
           (mkMessage "C" [] "S") []);
    try reflexivity; try exact I.
  right. split; [discriminate|]. split; [discriminate|reflexivity].
Defined.

Lemma shutdown_witness :
  watch [readCancel; relayByR] wTopic
  = Ret tt (withRcv (set_watchDone (Some true)) wTopic).
Proof.
  apply (proj1 (watcher_exits_on_shutdown (X:=codec) wTopic readCancel [relayByR]
                  ctxCanceled eq_refl eq_refl ltac:(discriminate) eq_refl)).
Defined.

Lemma Close_with_watcher_witness :
  exists w1 w2 res w3,
    Close closeOk wTopic = Blocked w1 /\
    watch [readCancel] w1 = Ret tt w2 /\
    Close_resume closeOk w2 = Ret res w3 /\
    announceMutex (rcv w3) = false /\ closed (rcv w3) = true.
Proof.
  destruct (Close_waits_for_watcher (X:=codec) wTopic closeOk (SubH 0) readCancel []
              ctxCanceled eq_refl eq_refl eq_refl eq_refl eq_refl eq_refl
              ltac:(discriminate) eq_refl eq_refl)
    as (H1 & H2 & res & w3 & H3 & H4).
  do 4 eexists. split; [exact H1|]. split; [exact H2|]. split; [exact H3|].
  rewrite H4. split; reflexivity.
Defined.

Lemma exits_when_closed_witness :
  exists tr,
    watch [firstHopByR; relayByR] wTopicClosed
    = Ret tt (mkWorld (set_watchDone (Some true) (rcv wTopicClosed)) tr false).
Proof.
  apply (watcher_exits_when_closed (X:=codec) wTopicClosed firstHopByR [relayByR]
           (list_byte_of_string "R") (wire "C" "") "R" "R" (mkMessage "C" [] "") []);
    try reflexivity; try exact I; discriminate.
Defined.

Lemma restart_witness :
  watchTurn readBroken wTopic
  = Ret Continue
      (mkWorld (set_topicSub (Some (SubH 1)) (rcv wTopic))
         [EvSubscribe topicT; EvSubCancel (SubH 0);
          EvLog LvlError "Error reading from pubsub"] false).
Proof.
  apply (proj1 (failed_read_restarts_subscription (X:=codec) wTopic readBroken []
                  (ErrOther "reset") (SubH 0) topicT
                  eq_refl eq_refl eq_refl eq_refl eq_refl eq_refl)).
Defined.

Lemma failed_restart_witness :
  exists w' res w3,
    watch [readBrokenForGood; relayByR] wTopic = Ret tt w' /\
    topicSub (rcv w') = None /\
    Close closeOk w' = Ret res w3 /\
    closed (rcv w3) = true.
Proof.
  destruct (failed_restart_ends_watcher (X:=codec) wTopic readBrokenForGood [relayByR]
              (ErrOther "reset") (ErrOther "topic closed") (SubH 0) topicT closeOk
              eq_refl eq_refl eq_refl eq_refl eq_refl eq_refl eq_refl eq_refl eq_refl)
    as (H1 & res & w3 & H2 & H3 & _).
  do 3 eexists. split; [exact H1|]. split; [reflexivity|]. split; [exact H2|].
  rewrite H3. reflexivity.
Defined.

Lemma NewReceiver_gives_witness :
  let opts := mkOptions (Some topicT) None true true in
  let r := onTopic hostH topicT opts in
  closed r = false /\ announceMutex r = false /\ done r = false /\ outChan r = [].
Proof.
  intros opts r.
  destruct (NewReceiver_gives (Some hostH) "" (allOk opts) r
              [EvGoWatch; EvSenderNew; EvSubscribe topicT] eq_refl)
    as (o & _ & _ & _ & H1 & H2 & H3 & H4 & _).
  split; [exact H1|]. split; [exact H2|]. split; [exact H3|exact H4].
Defined.

Lemma NewReceiver_failure_witness :
  let env := mkNewEnv (inr options0) None (Some (ErrOther "no subscription")) None in
  ~ In EvGoWatch (snd (NewReceiver (Some hostH) "topic" env)).
Proof.
  intros env.
  apply (proj1 (NewReceiver_failure (Some hostH) "topic" env
                  (ErrOther "no subscription") _ eq_refl)).
Defined.

Lemma TopicName_witness :
  TopicName (mkWorld (directOnly options0) [] false)
  = Panic (mkWorld (directOnly options0) [] false).
Proof.
  apply (TopicName_of_new None "" (allOk options0) options0 (directOnly options0) []
           eq_refl eq_refl).
Defined.
